(** * In-memory CRUD services: the item API and the todo API

    A shallow embedding of the two FastAPI applications of the repository
    (the basic item service and [todo_api.py]) and the proofs of their CRUD
    contract.

    Python integers are unbounded, so they are [Z].  A Python [str] is a
    sequence of Unicode code points, [Py.str], and its [len] is the number
    of code points, whatever their encoding takes in bytes.  A Python
    list is a [list]; the module-level lists [items] and
    [all_todos] are the state that every handler reads and writes,
    threaded explicitly through a small state-and-exception monad. *)

From Stdlib Require Import Ascii.
From stdpp Require Import base numbers list strings sorting.

Local Open Scope Z_scope.

(** ** Python primitives used by the handlers *)

Module Py.

(** The exceptions a handler can leave with.  [HTTPException] is the one
    the handlers raise themselves; [IndexError] is the built-in raised by
    list indexing (the framework answers it with a 500, not a 404);
    [RequestValidationError] is raised by the framework when a request
    body violates the declared model (answered with a 422). *)
Inductive exn : Type :=
| HTTPException (status_code : Z) (detail : string)
| IndexError
| RequestValidationError.

Inductive result (A : Type) : Type :=
| Ok (a : A)
| Raise (e : exn).
Global Arguments Ok {A} a.
Global Arguments Raise {A} e.

(** [len(l)] *)
Definition len {A} (l : list A) : Z := Z.of_nat (length l).

(** A [str] value: its code points in order, so that [length] is the
    number of characters, which is what [len(s)] and the framework's
    [min_length] and [max_length] count. *)
Definition str : Type := list N.

(** How a [str] literal is written here: the code points of the UTF-8
    text of a Rocq string literal.  A byte below 128 is a code point; a
    lead byte announces one, two or three continuation bytes, each of
    which brings six more bits. *)
Fixpoint utf8_from (need : nat) (acc : N) (s : string) : str :=
  match s with
  | EmptyString => []
  | String c rest =>
      let b := N_of_ascii c in
      match need with
      | O =>
          if (b <? 128)%N then b :: utf8_from 0 0%N rest
          else if (b <? 224)%N then utf8_from 1 (b `mod` 32)%N rest
          else if (b <? 240)%N then utf8_from 2 (b `mod` 16)%N rest
          else utf8_from 3 (b `mod` 8)%N rest
      | S need' =>
          let acc' := (acc * 64 + b `mod` 64)%N in
          match need' with
          | O => acc' :: utf8_from 0 0%N rest
          | S _ => utf8_from need' acc' rest
          end
      end
  end.

Definition utf8 (s : string) : str := utf8_from 0 0%N s.

(** [l[i]] for an integer [i]: a negative index counts from the end, and
    an index that is still out of range raises [IndexError]. *)
Definition getitem {A} (l : list A) (i : Z) : result A :=
  let i' := if decide (i < 0) then i + len l else i in
  if decide (i' < 0 ∨ len l ≤ i') then Raise IndexError
  else match l !! Z.to_nat i' with
       | Some x => Ok x
       | None => Raise IndexError
       end.

(** How a slice bound is brought into [0, len]: a negative bound counts
    from the end and is clipped at 0, a large one is clipped at [len]. *)
Definition adjust_index (i n : Z) : Z :=
  if decide (i < 0) then Z.max (i + n) 0 else Z.min i n.

(** [l[start:stop]] (step 1) *)
Definition slice {A} (l : list A) (start stop : Z) : list A :=
  let s := adjust_index start (len l) in
  let e := adjust_index stop (len l) in
  take (Z.to_nat (e - s)) (drop (Z.to_nat s) l).

(** [max(l, default = d)] *)
Definition max_default (l : list Z) (d : Z) : Z :=
  match l with
  | [] => d
  | x :: xs => foldl Z.max x xs
  end.

(** *** Handlers: state passing with exceptions

    A handler runs on the current module-level list and returns its
    result (a value or a raised exception) with the list as it left it.
    Nothing is rolled back when an exception is raised. *)
Definition handler (S A : Type) : Type := S → result A * S.

Definition ret {S A} (a : A) : handler S A := λ s, (Ok a, s).
Definition raise {S A} (e : exn) : handler S A := λ s, (Raise e, s).
Definition get {S} : handler S S := λ s, (Ok s, s).
Definition put {S} (s' : S) : handler S unit := λ _, (Ok tt, s').
Definition bind {S A B} (m : handler S A) (k : A → handler S B) : handler S B :=
  λ s, match m s with
       | (Ok a, s') => k a s'
       | (Raise e, s') => (Raise e, s')
       end.

(** A result computed without touching the state (an indexing, a validation). *)
Definition lift {S A} (r : result A) : handler S A := λ s, (r, s).

End Py.

Declare Scope handler_scope.
Delimit Scope handler_scope with handler.
Notation "'let!' x ':=' m 'in' k" := (Py.bind m (λ x, k))
  (at level 10, x name, m at level 100, k at level 200) : handler_scope.
Notation "'run!' m 'in' k" := (Py.bind m (λ _, k))
  (at level 10, m at level 100, k at level 200) : handler_scope.

(** ** The item API *)

Module ItemApi.
Import Py.

(** [class Item(BaseModel)]: [text: str = None], [is_done: bool = False] *)
Record Item : Type := { text : option str; is_done : bool }.

Global Instance Item_eq_dec : EqDecision Item.
Proof. solve_decision. Defined.

(** [items = []] *)
Definition items_init : list Item := [].

(** [GET /] *)
Definition root : list (string * string) := [("Hello", "World")]%string.

(** [POST /items]: [items.append(item); return items] *)
Definition create_item (item : Item) : handler (list Item) (list Item) :=
  (let! items := get in
   run! put (items ++ [item]) in
   let! items := get in
   ret items)%handler.

(** [GET /items]: [return items[0:limit]] *)
Definition list_items (limit : Z) : handler (list Item) (list Item) :=
  (let! items := get in
   ret (slice items 0 limit))%handler.

(** The query parameter [limit: int = 10]. *)
Definition list_items_query (limit : option Z) : handler (list Item) (list Item) :=
  list_items (default 10 limit).

(** [GET /items/{item_id}].  The source names this function [create_item]
    as well; it is the handler the specification calls [get_item]. *)
Definition get_item (item_id : Z) : handler (list Item) Item :=
  (let! items := get in
   if decide (item_id < len items) then
     lift (getitem items item_id)
   else
     raise (HTTPException 404 "Item not found"))%handler.

End ItemApi.

(** ** The todo API *)

Module TodoApi.
Import Py.

(** [class Priority(IntEnum)] *)
Inductive Priority : Type := low | medium | high.

Global Instance Priority_eq_dec : EqDecision Priority.
Proof. solve_decision. Defined.

Definition Priority_value (p : Priority) : Z :=
  match p with
  | low => 3
  | medium => 2
  | high => 1
  end.

(** [Priority(v)]: the member with that value, if there is one. *)
Definition Priority_of_value (v : Z) : option Priority :=
  if decide (v = 3) then Some low
  else if decide (v = 2) then Some medium
  else if decide (v = 1) then Some high
  else None.

(** The length constraints a [Field(...)] declares on a [str]. *)
Record StrField : Type :=
  { min_length : option nat; max_length : option nat }.

(** [Field(..., min_length = 3, max_length = 512)], on [todo_name] in
    [TodoBase] and in [TodoUpdate]. *)
Definition todo_name_field : StrField :=
  {| min_length := Some 3%nat; max_length := Some 512%nat |}.

(** [Field(...)] on [todo_description]: no length constraint. *)
Definition todo_description_field : StrField :=
  {| min_length := None; max_length := None |}.

(** The framework's check of a [str] against a field's constraints:
    [min_length <= len(s) <= max_length], each bound only if declared,
    where [len(s)] is the number of code points of [s]. *)
Definition check_str (f : StrField) (s : str) : bool :=
  match min_length f with
  | Some lo => bool_decide (lo ≤ length s)%nat
  | None => true
  end
  &&
  match max_length f with
  | Some hi => bool_decide (length s ≤ hi)%nat
  | None => true
  end.

(** [class TodoCreate(TodoBase)] *)
Module TodoCreate.
Record t : Type :=
  { todo_name : str; todo_description : str; priority : Priority }.
End TodoCreate.

(** [class TodoUpdate(BaseModel)]: every field optional, [None] by default. *)
Module TodoUpdate.
Record t : Type :=
  { todo_name : option str;
    todo_description : option str;
    priority : option Priority }.
End TodoUpdate.

(** [class Todo(TodoBase)] with [todo_id: int] *)
Module Todo.
Record t : Type :=
  { todo_id : Z;
    todo_name : str;
    todo_description : str;
    priority : Priority }.

Global Instance eq_dec : EqDecision t.
Proof. solve_decision. Defined.

(** Attribute assignment [todo.field = v] *)
Definition set_todo_name (v : str) (x : t) : t :=
  {| todo_id := todo_id x; todo_name := v;
     todo_description := todo_description x; priority := priority x |}.
Definition set_todo_description (v : str) (x : t) : t :=
  {| todo_id := todo_id x; todo_name := todo_name x;
     todo_description := v; priority := priority x |}.
Definition set_priority (v : Priority) (x : t) : t :=
  {| todo_id := todo_id x; todo_name := todo_name x;
     todo_description := todo_description x; priority := v |}.
End Todo.

(** A member of a JSON request body: missing, an explicit [null], or a
    value of the member's JSON type. *)
Inductive field (A : Type) : Type :=
| Absent
| Null
| Value (a : A).
Global Arguments Absent {A}.
Global Arguments Null {A}.
Global Arguments Value {A} a.

(** What an [Optional[...] = None] attribute receives from a member:
    its value, and [None] when it is missing or [null]. *)
Definition field_value {A} (f : field A) : option A :=
  match f with
  | Value a => Some a
  | Absent | Null => None
  end.

(** The JSON body of [POST /todos] before validation; [priority] arrives
    as its integer value. *)
Module TodoCreateBody.
Record t : Type :=
  { todo_name : field str;
    todo_description : field str;
    priority : field Z }.
End TodoCreateBody.

(** Validation of a request body against [TodoCreate]: [todo_name] and
    [todo_description] are required strings ([Field(...)]), so a missing
    or [null] one is refused; [todo_name] has the declared length bounds;
    [priority] defaults to [Priority.low] when missing, and is otherwise
    the value of a member of [Priority] ([null] is none). *)
Definition validate_TodoCreate (body : TodoCreateBody.t) : result TodoCreate.t :=
  match TodoCreateBody.todo_name body, TodoCreateBody.todo_description body with
  | Value name, Value description =>
      if check_str todo_name_field name && check_str todo_description_field description
      then
        match TodoCreateBody.priority body with
        | Absent =>
            Ok {| TodoCreate.todo_name := name;
                  TodoCreate.todo_description := description;
                  TodoCreate.priority := low |}
        | Null => Raise RequestValidationError
        | Value v =>
            match Priority_of_value v with
            | Some p =>
                Ok {| TodoCreate.todo_name := name;
                      TodoCreate.todo_description := description;
                      TodoCreate.priority := p |}
            | None => Raise RequestValidationError
            end
        end
      else Raise RequestValidationError
  | _, _ => Raise RequestValidationError
  end.

(** [all_todos] as the module initialises it. *)
Definition all_todos_init : list Todo.t :=
  [ {| Todo.todo_id := 1; Todo.todo_name := utf8 "Exercise";
       Todo.todo_description := utf8 "Gym"; Todo.priority := medium |};
    {| Todo.todo_id := 2; Todo.todo_name := utf8 "Read";
       Todo.todo_description := utf8 "Library"; Todo.priority := low |};
    {| Todo.todo_id := 3; Todo.todo_name := utf8 "Shop";
       Todo.todo_description := utf8 "Mall"; Todo.priority := high |};
    {| Todo.todo_id := 4; Todo.todo_name := utf8 "Study";
       Todo.todo_description := utf8 "College"; Todo.priority := medium |};
    {| Todo.todo_id := 5; Todo.todo_name := utf8 "Meditate";
       Todo.todo_description := utf8 "Session"; Todo.priority := low |} ].

(** [for todo in all_todos: if todo.todo_id == todo_id: ...]: the loop
    body runs its [return] at the first record with that id, so the loop
    is a search for the first match, with its index ([enumerate]). *)
Definition find_todo (todo_id : Z) (all_todos : list Todo.t) : option (nat * Todo.t) :=
  list_find (λ todo, Todo.todo_id todo = todo_id) all_todos.

Definition not_found {A} : handler (list Todo.t) A :=
  raise (HTTPException 404 "Todo not found").

(** [GET /todos/{todo_id}] *)
Definition get_todo (todo_id : Z) : handler (list Todo.t) Todo.t :=
  (let! all_todos := get in
   match find_todo todo_id all_todos with
   | Some (_, todo) => ret todo
   | None => not_found
   end)%handler.

(** [GET /todos] *)
Definition get_todos (first_n : option Z) : handler (list Todo.t) (list Todo.t) :=
  (let! all_todos := get in
   match first_n with
   | Some n => ret (slice all_todos 0 n)
   | None => ret all_todos
   end)%handler.

(** [POST /todos], the handler on a validated [TodoCreate] *)
Definition create_todo (todo : TodoCreate.t) : handler (list Todo.t) Todo.t :=
  (let! all_todos := get in
   let new_todo_id := max_default (Todo.todo_id <$> all_todos) 0 + 1 in
   let new_todo :=
     {| Todo.todo_id := new_todo_id;
        Todo.todo_name := TodoCreate.todo_name todo;
        Todo.todo_description := TodoCreate.todo_description todo;
        Todo.priority := TodoCreate.priority todo |} in
   run! put (all_todos ++ [new_todo]) in
   ret new_todo)%handler.

(** [POST /todos] as a client reaches it: the framework validates the
    body, and only a valid one is handed to [create_todo]. *)
Definition post_todos (body : TodoCreateBody.t) : handler (list Todo.t) Todo.t :=
  (let! todo := lift (validate_TodoCreate body) in
   create_todo todo)%handler.

(** The three conditional assignments of [update_todo], in order. *)
Definition apply_update (updated_todo : TodoUpdate.t) (todo : Todo.t) : Todo.t :=
  let todo :=
    match TodoUpdate.todo_name updated_todo with
    | Some v => Todo.set_todo_name v todo
    | None => todo
    end in
  let todo :=
    match TodoUpdate.todo_description updated_todo with
    | Some v => Todo.set_todo_description v todo
    | None => todo
    end in
  let todo :=
    match TodoUpdate.priority updated_todo with
    | Some v => Todo.set_priority v todo
    | None => todo
    end in
  todo.

(** [PUT /todos/{todo_id}]: the matched record is an element of the
    list, so assigning to its attributes changes the list at its index. *)
Definition update_todo (todo_id : Z) (updated_todo : TodoUpdate.t)
  : handler (list Todo.t) Todo.t :=
  (let! all_todos := get in
   match find_todo todo_id all_todos with
   | Some (index, todo) =>
       let todo := apply_update updated_todo todo in
       run! put (<[index := todo]> all_todos) in
       ret todo
   | None => not_found
   end)%handler.

(** The body of [DELETE]'s answer, [{"deleted": deleted_todo}]. *)
Record Deleted : Type := { deleted : Todo.t }.

(** [DELETE /todos/{todo_id}]: [all_todos.pop(index)] at the first match. *)
Definition delete_todo (todo_id : Z) : handler (list Todo.t) Deleted :=
  (let! all_todos := get in
   match find_todo todo_id all_todos with
   | Some (index, deleted_todo) =>
       run! put (delete index all_todos) in
       ret {| deleted := deleted_todo |}
   | None => not_found
   end)%handler.

(** The store after a [DELETE] of each seeded todo in turn. *)
Definition emptied_store : list Todo.t :=
  foldl (λ all_todos todo_id, snd (delete_todo todo_id all_todos))
        all_todos_init [1; 2; 3; 4; 5].

(** The requests that can change the store, and the store after one. *)
Inductive request : Type :=
| Create (todo : TodoCreate.t)
| Update (todo_id : Z) (updated_todo : TodoUpdate.t)
| Delete (todo_id : Z).

Definition serve (all_todos : list Todo.t) (r : request) : list Todo.t :=
  match r with
  | Create todo => snd (create_todo todo all_todos)
  | Update todo_id updated_todo => snd (update_todo todo_id updated_todo all_todos)
  | Delete todo_id => snd (delete_todo todo_id all_todos)
  end.

(** The stores the running service can be in: the seeded one after any
    sequence of requests. *)
Definition reachable (all_todos : list Todo.t) : Prop :=
  ∃ requests, foldl serve all_todos_init requests = all_todos.

(** The ids in the store, in store order. *)
Definition ids (all_todos : list Todo.t) : list Z := Todo.todo_id <$> all_todos.

(** [GET /] *)
Definition home : list (string * string) :=
  [("message", "Your FastAPI Todo API is running")]%string.

(** The JSON body of [PUT /todos/{todo_id}] before validation;
    [priority] arrives as its integer value. *)
Module TodoUpdateBody.
Record t : Type :=
  { todo_name : field str;
    todo_description : field str;
    priority : field Z }.
End TodoUpdateBody.

(** Validation of a request body against [TodoUpdate]: every field is
    [Optional] with default [None], so a missing or [null] member gives
    [None]; a [todo_name] that is given has the declared length bounds
    ([Field(None, min_length = 3, max_length = 512)]), and a [priority]
    that is given is the value of a member of [Priority]. *)
Definition validate_TodoUpdate (body : TodoUpdateBody.t) : result TodoUpdate.t :=
  if match field_value (TodoUpdateBody.todo_name body) with
     | Some name => check_str todo_name_field name
     | None => true
     end
  then
    match field_value (TodoUpdateBody.priority body) with
    | None =>
        Ok {| TodoUpdate.todo_name := field_value (TodoUpdateBody.todo_name body);
              TodoUpdate.todo_description :=
                field_value (TodoUpdateBody.todo_description body);
              TodoUpdate.priority := None |}
    | Some v =>
        match Priority_of_value v with
        | Some p =>
            Ok {| TodoUpdate.todo_name := field_value (TodoUpdateBody.todo_name body);
                  TodoUpdate.todo_description :=
                    field_value (TodoUpdateBody.todo_description body);
                  TodoUpdate.priority := Some p |}
        | None => Raise RequestValidationError
        end
    end
  else Raise RequestValidationError.

(** [PUT /todos/{todo_id}] as a client reaches it: the framework
    validates the body before [update_todo] runs. *)
Definition put_todos (todo_id : Z) (body : TodoUpdateBody.t)
  : handler (list Todo.t) Todo.t :=
  (let! updated_todo := lift (validate_TodoUpdate body) in
   update_todo todo_id updated_todo)%handler.

(** The requests of the HTTP interface, and the store after one. *)
Inductive http_request : Type :=
| GET_todo (todo_id : Z)
| GET_todos (first_n : option Z)
| POST_todos (body : TodoCreateBody.t)
| PUT_todos (todo_id : Z) (body : TodoUpdateBody.t)
| DELETE_todos (todo_id : Z).

Definition serve_http (all_todos : list Todo.t) (r : http_request) : list Todo.t :=
  match r with
  | GET_todo todo_id => snd (get_todo todo_id all_todos)
  | GET_todos first_n => snd (get_todos first_n all_todos)
  | POST_todos body => snd (post_todos body all_todos)
  | PUT_todos todo_id body => snd (put_todos todo_id body all_todos)
  | DELETE_todos todo_id => snd (delete_todo todo_id all_todos)
  end.

(** The stores the service is in after any sequence of HTTP requests. *)
Definition reachable_http (all_todos : list Todo.t) : Prop :=
  ∃ requests, foldl serve_http all_todos_init requests = all_todos.

End TodoApi.

(** * Properties *)

(** ** Python lists *)

Section py_lists.
Context {A : Type}.
Implicit Types l : list A.
Import Py.

Lemma len_nonneg l : 0 ≤ len l.
Proof. unfold len. lia. Qed.

Lemma len_app l k : len (l ++ k) = len l + len k.
Proof. unfold len. rewrite length_app. lia. Qed.

(** An index in [0, len) reads the element at that position. *)
Lemma getitem_nonneg l (n : nat) x :
  l !! n = Some x → getitem l (Z.of_nat n) = Ok x.
Proof.
  intros Hn. pose proof (lookup_lt_Some _ _ _ Hn) as Hlt.
  unfold getitem, len. cbv zeta.
  destruct (decide (Z.of_nat n < 0)) as [?|_]; [lia|].
  destruct (decide _) as [?|_]; [lia|].
  by rewrite Nat2Z.id, Hn.
Qed.

(** An index in [-len, 0) reads from the end. *)
Lemma getitem_negative l i :
  - len l ≤ i < 0 → getitem l i = getitem l (len l + i).
Proof.
  intros Hi. unfold getitem. cbv zeta.
  destruct (decide (i < 0)) as [_|?]; [|lia].
  destruct (decide (len l + i < 0)) as [?|_]; [lia|].
  by rewrite (Z.add_comm i).
Qed.

(** Below [-len] there is nothing to read. *)
Lemma getitem_below l i : i < - len l → getitem l i = Raise IndexError.
Proof.
  intros Hi. pose proof (len_nonneg l). unfold getitem. cbv zeta.
  destruct (decide (i < 0)) as [_|?]; [|lia].
  destruct (decide _) as [_|?]; [done|lia].
Qed.

Lemma adjust_index_range i n : 0 ≤ n → 0 ≤ adjust_index i n ≤ n.
Proof. unfold adjust_index. case_decide; lia. Qed.

(** A slice from 0 is a prefix. *)
Lemma slice_from_0 l stop :
  slice l 0 stop = take (Z.to_nat (adjust_index stop (len l))) l.
Proof.
  pose proof (len_nonneg l).
  unfold slice. replace (adjust_index 0 (len l)) with 0
    by (unfold adjust_index; rewrite decide_False by lia; lia).
  by rewrite Z.sub_0_r, drop_0.
Qed.

Lemma len_take_adjust l stop :
  len (take (Z.to_nat (adjust_index stop (len l))) l) = adjust_index stop (len l).
Proof.
  pose proof (adjust_index_range stop (len l) (len_nonneg l)) as Hr.
  unfold len in *. rewrite length_take. lia.
Qed.

(** [max_default] on a non-empty list is a member and an upper bound. *)
Lemma foldl_max_ge (xs : list Z) x : x ≤ foldl Z.max x xs.
Proof.
  revert x. induction xs as [|y xs IH]; intros x; simpl; [lia|].
  etrans; [|apply IH]. lia.
Qed.

Lemma foldl_max_upper (xs : list Z) x y : y ∈ xs → y ≤ foldl Z.max x xs.
Proof.
  revert x. induction xs as [|z xs IH]; intros x; simpl.
  - by intros ?%elem_of_nil.
  - intros [->|Hin]%elem_of_cons; [|by apply IH].
    etrans; [|apply foldl_max_ge]. lia.
Qed.

Lemma foldl_max_elem (xs : list Z) x :
  foldl Z.max x xs = x ∨ foldl Z.max x xs ∈ xs.
Proof.
  revert x. induction xs as [|z xs IH]; intros x; simpl; [by left|].
  destruct (IH (Z.max x z)) as [->|Hin].
  - destruct (Z.max_spec x z) as [[_ ->]|[_ ->]]; [right; left|by left].
  - right. by right.
Qed.

End py_lists.

Lemma max_default_elem (l : list Z) d : l ≠ [] → Py.max_default l d ∈ l.
Proof.
  destruct l as [|x xs]; [done|]; intros _; simpl.
  destruct (foldl_max_elem xs x) as [->|Hin]; [left|by right].
Qed.

Lemma max_default_upper (l : list Z) d y : y ∈ l → y ≤ Py.max_default l d.
Proof.
  destruct l as [|x xs]; simpl.
  - by intros ?%elem_of_nil.
  - intros [->|Hin]%elem_of_cons; [apply foldl_max_ge|by apply foldl_max_upper].
Qed.

(** The code points of some [str] literals: one per character, in one,
    two, three or four bytes of UTF-8. *)
Example utf8_code_points :
  Py.utf8 "abc" = [97; 98; 99]%N ∧
  Py.utf8 "é" = [233]%N ∧
  Py.utf8 "日本語" = [26085; 26412; 35486]%N ∧
  Py.utf8 "😀" = [128512]%N ∧
  length (Py.utf8 "日本") = 2%nat.
Proof. by vm_compute. Qed.

(** ** The item API *)

Section item_api.
Import Py ItemApi.
Implicit Types items : list Item.

Lemma get_item_unfold item_id items :
  get_item item_id items =
    if decide (item_id < len items) then (getitem items item_id, items)
    else (Raise (HTTPException 404 "Item not found"), items).
Proof. unfold get_item, bind, get, lift, raise. by case_decide. Qed.

(** An id in [0, len) answers with the item inserted at that position. *)
Lemma get_item_in_range items (n : nat) x :
  items !! n = Some x → get_item (Z.of_nat n) items = (Ok x, items).
Proof.
  intros Hn. pose proof (lookup_lt_Some _ _ _ Hn).
  rewrite get_item_unfold, decide_True by (unfold len; lia).
  by rewrite (getitem_nonneg _ _ _ Hn).
Qed.

(** An id at or past the length answers 404 and leaves the list alone. *)
Lemma get_item_not_found items item_id :
  len items ≤ item_id →
  get_item item_id items = (Raise (HTTPException 404 "Item not found"), items).
Proof. intros. by rewrite get_item_unfold, decide_False by lia. Qed.

(** C1 (the part the code misses).  The range check of [get_item] has no
    lower bound: for a negative [item_id] the handler never answers
    NotFound.  It either returns an item (counted from the end) or
    leaves with the built-in [IndexError]. *)
Theorem get_item_negative_never_not_found items item_id :
  item_id < 0 →
  (∃ x, get_item item_id items = (Ok x, items)) ∨
  get_item item_id items = (Raise IndexError, items).
Proof.
  intros Hneg. pose proof (len_nonneg items).
  rewrite get_item_unfold, decide_True by lia.
  destruct (getitem items item_id) as [x|e] eqn:Hget; [by eauto|].
  right. f_equal. f_equal.
  unfold getitem in Hget. cbv zeta in Hget.
  repeat case_decide; try by simplify_eq.
  all: by destruct (items !! _); simplify_eq.
Qed.

(** C10.  For [-n <= item_id < 0] on a list of length [n], the handler
    succeeds with the element at position [n + item_id]. *)
Theorem get_item_negative_index items item_id :
  - len items ≤ item_id < 0 →
  ∃ x, items !! Z.to_nat (len items + item_id) = Some x ∧
       get_item item_id items = (Ok x, items).
Proof.
  intros Hi.
  destruct (lookup_lt_is_Some_2 items (Z.to_nat (len items + item_id)))
    as [x Hx]; [unfold len in *; lia|].
  exists x. split; [done|].
  rewrite get_item_unfold, decide_True by lia.
  rewrite getitem_negative by done.
  rewrite <-(Z2Nat.id (len items + item_id)) by lia.
  by rewrite (getitem_nonneg _ _ _ Hx).
Qed.

(** C7.  [create_item] appends the item and returns the whole updated
    list: its last element is the item, it is one longer, and what was
    stored before keeps its position. *)
Theorem create_item_appends items item :
  ∃ returned,
    create_item item items = (Ok returned, returned) ∧
    returned = items ++ [item] ∧
    last returned = Some item ∧
    len returned = len items + 1 ∧
    ∀ i x, items !! i = Some x → returned !! i = Some x.
Proof.
  exists (items ++ [item]). split_and!.
  - done.
  - done.
  - apply last_snoc.
  - by rewrite len_app.
  - intros i x Hi. by apply lookup_app_l_Some.
Qed.

Lemma list_items_unfold limit items :
  list_items limit items =
    (Ok (take (Z.to_nat (adjust_index limit (len items))) items), items).
Proof. unfold list_items, bind, get, ret. by rewrite slice_from_0. Qed.

(** C2 as stated fails for a negative limit: on three items,
    [limit = -1] answers with two of them, which is more than [limit]
    and not [min(limit, 3)]. *)
Lemma list_items_negative_limit_counterexample :
  let a := {| text := Some (utf8 "a"); is_done := false |} in
  let b := {| text := Some (utf8 "b"); is_done := false |} in
  let c := {| text := None; is_done := true |} in
  list_items (-1) [a; b; c] = (Ok [a; b], [a; b; c]) ∧
  ¬ (len [a; b] ≤ -1) ∧
  len [a; b] ≠ Z.min (-1) (len [a; b; c]).
Proof. split_and!; [reflexivity| |]; vm_compute; congruence. Qed.

(** C2, amended.  [list_items] returns a prefix of the list, in
    insertion order, and leaves the list alone.  For [limit >= 0] the
    prefix has exactly [min(limit, len)] elements, so never more than
    [limit]; for [limit < 0] it has [max(len + limit, 0)] elements. *)
Theorem list_items_prefix items limit :
  ∃ returned,
    list_items limit items = (Ok returned, items) ∧
    returned `prefix_of` items ∧
    (0 ≤ limit → len returned = Z.min limit (len items) ∧ len returned ≤ limit) ∧
    (limit < 0 → len returned = Z.max (len items + limit) 0).
Proof.
  eexists. split; [apply list_items_unfold|].
  split; [apply prefix_take|].
  rewrite len_take_adjust. unfold adjust_index.
  split; intros; case_decide; lia.
Qed.

Lemma list_items_prefix_witness :
  let a := {| text := Some (utf8 "a"); is_done := false |} in
  let b := {| text := None; is_done := true |} in
  ∃ r1 r2,
    list_items 1 [a; b] = (Ok r1, [a; b]) ∧ len r1 = 1 ∧
    list_items (-1) [a; b] = (Ok r2, [a; b]) ∧ len r2 = 1.
Proof.
  intros a b.
  destruct (list_items_prefix [a; b] 1) as (r1 & H1 & _ & Hpos1 & _).
  destruct (list_items_prefix [a; b] (-1)) as (r2 & H2 & _ & _ & Hneg2).
  exists r1, r2. split_and!.
  - exact H1.
  - destruct Hpos1 as [-> _]; [lia|reflexivity].
  - exact H2.
  - rewrite Hneg2; [reflexivity|lia].
Defined.

Lemma get_item_negative_never_not_found_witness :
  let a := {| text := Some (utf8 "a"); is_done := false |} in
  (∃ x, get_item (-1) [a] = (Ok x, [a])) ∨
  get_item (-1) [a] = (Raise IndexError, [a]).
Proof. intros a. apply (get_item_negative_never_not_found [a] (-1)). lia. Defined.

Lemma get_item_negative_index_witness :
  let a := {| text := Some (utf8 "a"); is_done := false |} in
  let b := {| text := None; is_done := true |} in
  ∃ x, [a; b] !! Z.to_nat (len [a; b] + -1) = Some x ∧
       get_item (-1) [a; b] = (Ok x, [a; b]).
Proof.
  intros a b. apply (get_item_negative_index [a; b] (-1)).
  vm_compute. split; congruence.
Defined.

End item_api.

(** ** The todo API *)

Section todo_api.
Import Py TodoApi.
Implicit Types all_todos : list Todo.t.
Implicit Types todo_id : Z.

(** *** The search loop *)

Lemma find_todo_Some todo_id all_todos index todo :
  find_todo todo_id all_todos = Some (index, todo) ↔
    all_todos !! index = Some todo ∧ Todo.todo_id todo = todo_id ∧
    ∀ j y, all_todos !! j = Some y → (j < index)%nat → Todo.todo_id y ≠ todo_id.
Proof. unfold find_todo. by rewrite list_find_Some. Qed.

Lemma find_todo_None todo_id all_todos :
  find_todo todo_id all_todos = None ↔
    ∀ y, y ∈ all_todos → Todo.todo_id y ≠ todo_id.
Proof. unfold find_todo. by rewrite list_find_None, Forall_forall. Qed.

Lemma find_todo_is_Some todo_id all_todos todo :
  todo ∈ all_todos → Todo.todo_id todo = todo_id →
  is_Some (find_todo todo_id all_todos).
Proof. intros Hin Hid. unfold find_todo. by eapply list_find_elem_of. Qed.

(** The first match splits the list around itself. *)
Lemma find_todo_split todo_id all_todos index todo :
  find_todo todo_id all_todos = Some (index, todo) →
  all_todos = take index all_todos ++ todo :: drop (S index) all_todos ∧
  length (take index all_todos) = index ∧
  ∀ y, y ∈ take index all_todos → Todo.todo_id y ≠ todo_id.
Proof.
  intros (Hl & _ & Hfirst)%find_todo_Some.
  pose proof (lookup_lt_Some _ _ _ Hl).
  split_and!.
  - by rewrite take_drop_middle.
  - rewrite length_take. lia.
  - intros y (j & Hj)%list_elem_of_lookup.
    apply lookup_take_Some in Hj as [Hj ?]. by eapply Hfirst.
Qed.

(** *** The handlers, unfolded *)

Lemma get_todo_unfold todo_id all_todos :
  get_todo todo_id all_todos =
    match find_todo todo_id all_todos with
    | Some (_, todo) => (Ok todo, all_todos)
    | None => (Raise (HTTPException 404 "Todo not found"), all_todos)
    end.
Proof.
  unfold get_todo, bind, get. by destruct (find_todo _ _) as [[??]|].
Qed.

Lemma create_todo_unfold todo all_todos :
  let new_todo :=
    {| Todo.todo_id := max_default (ids all_todos) 0 + 1;
       Todo.todo_name := TodoCreate.todo_name todo;
       Todo.todo_description := TodoCreate.todo_description todo;
       Todo.priority := TodoCreate.priority todo |} in
  create_todo todo all_todos = (Ok new_todo, all_todos ++ [new_todo]).
Proof. done. Qed.

Lemma update_todo_unfold todo_id updated_todo all_todos :
  update_todo todo_id updated_todo all_todos =
    match find_todo todo_id all_todos with
    | Some (index, todo) =>
        (Ok (apply_update updated_todo todo),
         <[index := apply_update updated_todo todo]> all_todos)
    | None => (Raise (HTTPException 404 "Todo not found"), all_todos)
    end.
Proof.
  unfold update_todo, bind, get. by destruct (find_todo _ _) as [[??]|].
Qed.

Lemma delete_todo_unfold todo_id all_todos :
  delete_todo todo_id all_todos =
    match find_todo todo_id all_todos with
    | Some (index, todo) => (Ok {| deleted := todo |}, delete index all_todos)
    | None => (Raise (HTTPException 404 "Todo not found"), all_todos)
    end.
Proof.
  unfold delete_todo, bind, get. by destruct (find_todo _ _) as [[??]|].
Qed.

(** *** What [apply_update] does to each field *)

Lemma apply_update_todo_id updated_todo todo :
  Todo.todo_id (apply_update updated_todo todo) = Todo.todo_id todo.
Proof. unfold apply_update. by repeat case_match. Qed.

Lemma apply_update_todo_name updated_todo todo :
  Todo.todo_name (apply_update updated_todo todo) =
    default (Todo.todo_name todo) (TodoUpdate.todo_name updated_todo).
Proof. unfold apply_update. by repeat case_match. Qed.

Lemma apply_update_todo_description updated_todo todo :
  Todo.todo_description (apply_update updated_todo todo) =
    default (Todo.todo_description todo) (TodoUpdate.todo_description updated_todo).
Proof. unfold apply_update. by repeat case_match. Qed.

Lemma apply_update_priority updated_todo todo :
  Todo.priority (apply_update updated_todo todo) =
    default (Todo.priority todo) (TodoUpdate.priority updated_todo).
Proof. unfold apply_update. by repeat case_match. Qed.

(** *** Creation *)

(** C3.  [create_todo] appends a record built from the request whose id
    is one more than the largest stored id, and 1 on an empty store. *)
Theorem create_todo_assigns_next_id todo all_todos :
  ∃ new_todo,
    create_todo todo all_todos = (Ok new_todo, all_todos ++ [new_todo]) ∧
    Todo.todo_name new_todo = TodoCreate.todo_name todo ∧
    Todo.todo_description new_todo = TodoCreate.todo_description todo ∧
    Todo.priority new_todo = TodoCreate.priority todo ∧
    (all_todos = [] → Todo.todo_id new_todo = 1) ∧
    (all_todos ≠ [] →
     ∃ m, m ∈ ids all_todos ∧ (∀ i, i ∈ ids all_todos → i ≤ m) ∧
          Todo.todo_id new_todo = m + 1).
Proof.
  eexists. split; [apply create_todo_unfold|]. simpl. split_and!; try done.
  - by intros ->.
  - intros Hne. exists (max_default (ids all_todos) 0). split_and!.
    + apply max_default_elem. unfold ids. by destruct all_todos.
    + intros i. apply max_default_upper.
    + done.
Qed.

Lemma create_todo_assigns_next_id_witness :
  let todo := {| TodoCreate.todo_name := utf8 "Write"; TodoCreate.todo_description := utf8 "Desk";
                 TodoCreate.priority := high |} in
  emptied_store = [] ∧
  (∃ new_todo, fst (create_todo todo emptied_store) = Ok new_todo ∧
               Todo.todo_id new_todo = 1) ∧
  (∃ new_todo, fst (create_todo todo all_todos_init) = Ok new_todo ∧
               Todo.todo_id new_todo = 6).
Proof.
  intros todo. split; [reflexivity|]. split.
  - destruct (create_todo_assigns_next_id todo emptied_store)
      as (new_todo & Hrun & _ & _ & _ & Hempty & _).
    exists new_todo. split; [by rewrite Hrun|]. apply Hempty. reflexivity.
  - destruct (create_todo_assigns_next_id todo all_todos_init)
      as (new_todo & Hrun & _ & _ & _ & _ & Hmax).
    exists new_todo. split; [by rewrite Hrun|].
    destruct Hmax as (m & Hm & Hub & ->); [done|].
    assert (5 ≤ m) by (apply Hub, list_elem_of_In; simpl; tauto).
    apply list_elem_of_In in Hm. simpl in Hm. lia.
Defined.

(** C6.  [POST /todos] with a [todo_name] shorter than 3 or longer than
    512 characters is refused by validation and stores nothing, whatever
    the other fields are; with a name of length 3 or 512 (and the other
    fields valid) it creates the record.  The length of a name is its
    number of code points. *)
Theorem post_todos_name_length body name all_todos :
  TodoCreateBody.todo_name body = Value name →
  ((length name < 3 ∨ 512 < length name)%nat →
   post_todos body all_todos = (Raise RequestValidationError, all_todos)) ∧
  ((length name = 3 ∨ length name = 512)%nat →
   ∀ description,
     TodoCreateBody.todo_description body = Value description →
     (TodoCreateBody.priority body = Absent ∨
      ∃ p, TodoCreateBody.priority body = Value (Priority_value p)) →
     ∃ new_todo,
       post_todos body all_todos = (Ok new_todo, all_todos ++ [new_todo]) ∧
       Todo.todo_name new_todo = name ∧
       Todo.todo_description new_todo = description).
Proof.
  intros Hname.
  unfold post_todos, bind, lift, validate_TodoCreate. rewrite Hname.
  split.
  - intros Hlen.
    destruct (TodoCreateBody.todo_description body) as [| |description]; [done..|].
    replace (check_str todo_name_field name) with false; [done|].
    unfold check_str. simpl. symmetry. apply andb_false_iff.
    rewrite !bool_decide_eq_false. lia.
  - intros Hlen description -> Hprio.
    replace (check_str todo_name_field name) with true
      by (unfold check_str; simpl; by rewrite !bool_decide_eq_true_2 by lia).
    simpl. destruct Hprio as [->|[p ->]].
    + eexists. split; [apply create_todo_unfold|]. done.
    + replace (Priority_of_value (Priority_value p)) with (Some p)
        by by destruct p.
      eexists. split; [apply create_todo_unfold|]. done.
Qed.

(** Names of one and two characters (three and six bytes of UTF-8) are
    refused, and so is one of 513; names of three characters, in one
    byte each or in three, and one of 512 are accepted. *)
Lemma post_todos_name_length_witness :
  let body name :=
    {| TodoCreateBody.todo_name := Value name;
       TodoCreateBody.todo_description := Value (utf8 "Desk");
       TodoCreateBody.priority := Value 1 |} in
  let long n : str := replicate n 26085%N in
  post_todos (body (utf8 "ab")) all_todos_init
    = (Raise RequestValidationError, all_todos_init) ∧
  post_todos (body (utf8 "日")) all_todos_init
    = (Raise RequestValidationError, all_todos_init) ∧
  post_todos (body (utf8 "日本")) all_todos_init
    = (Raise RequestValidationError, all_todos_init) ∧
  post_todos (body (long 513%nat)) all_todos_init
    = (Raise RequestValidationError, all_todos_init) ∧
  (∃ new_todo, fst (post_todos (body (utf8 "abc")) all_todos_init) = Ok new_todo) ∧
  (∃ new_todo, fst (post_todos (body (utf8 "日本語")) all_todos_init) = Ok new_todo) ∧
  (∃ new_todo, fst (post_todos (body (long 512%nat)) all_todos_init) = Ok new_todo).
Proof.
  intros body long.
  assert (∀ name, TodoCreateBody.priority (body name) = Absent ∨
            ∃ p, TodoCreateBody.priority (body name) = Value (Priority_value p))
    as Hprio by (intros; right; by exists high).
  assert (∀ name, (length name < 3 ∨ 512 < length name)%nat →
            post_todos (body name) all_todos_init
              = (Raise RequestValidationError, all_todos_init)) as Hrefused.
  { intros name. apply (post_todos_name_length (body name) name). reflexivity. }
  assert (∀ name, (length name = 3 ∨ length name = 512)%nat →
            ∃ new_todo, fst (post_todos (body name) all_todos_init) = Ok new_todo)
    as Haccepted.
  { intros name Hlen.
    destruct (post_todos_name_length (body name) name all_todos_init eq_refl)
      as [_ Hok].
    destruct (Hok Hlen (utf8 "Desk") eq_refl (Hprio _)) as (new_todo & -> & _).
    by exists new_todo. }
  split_and!.
  - apply Hrefused. left. vm_compute. lia.
  - apply Hrefused. left. vm_compute. lia.
  - apply Hrefused. left. vm_compute. lia.
  - apply Hrefused. right. vm_compute. lia.
  - apply Haccepted. left. reflexivity.
  - apply Haccepted. left. reflexivity.
  - apply Haccepted. right. reflexivity.
Defined.

(** *** Deletion *)

(** C4.  [delete_todo] on an id no record has answers 404 and leaves
    the store exactly as it was. *)
Theorem delete_todo_not_found todo_id all_todos :
  (∀ todo, todo ∈ all_todos → Todo.todo_id todo ≠ todo_id) →
  delete_todo todo_id all_todos =
    (Raise (HTTPException 404 "Todo not found"), all_todos).
Proof.
  intros Hnone%find_todo_None. by rewrite delete_todo_unfold, Hnone.
Qed.

Lemma delete_todo_not_found_witness :
  delete_todo 9 all_todos_init =
    (Raise (HTTPException 404 "Todo not found"), all_todos_init).
Proof.
  apply (delete_todo_not_found 9 all_todos_init).
  intros todo Hin%list_elem_of_In. simpl in Hin.
  repeat (destruct Hin as [<-|Hin]; [by vm_compute|]). destruct Hin.
Defined.

(** C8.  [delete_todo] on an id some record has removes the first such
    record, keeps the records before and after it in their order, and
    answers with the removed record under the key [deleted]. *)
Theorem delete_todo_removes todo_id all_todos :
  (∃ todo, todo ∈ all_todos ∧ Todo.todo_id todo = todo_id) →
  ∃ before todo after,
    all_todos = before ++ todo :: after ∧
    Todo.todo_id todo = todo_id ∧
    (∀ y, y ∈ before → Todo.todo_id y ≠ todo_id) ∧
    delete_todo todo_id all_todos = (Ok {| deleted := todo |}, before ++ after).
Proof.
  intros (t & Hin & Hid).
  destruct (find_todo_is_Some _ _ _ Hin Hid) as [[index todo] Hfind].
  pose proof (find_todo_split _ _ _ _ Hfind) as (Hsplit & _ & Hbefore).
  apply find_todo_Some in Hfind as Hspec. destruct Hspec as (_ & Htid & _).
  exists (take index all_todos), todo, (drop (S index) all_todos).
  split_and!; [done..|].
  by rewrite delete_todo_unfold, Hfind, delete_take_drop.
Qed.

Lemma delete_todo_removes_witness :
  ∃ before todo after,
    all_todos_init = before ++ todo :: after ∧
    Todo.todo_id todo = 3 ∧
    (∀ y, y ∈ before → Todo.todo_id y ≠ 3) ∧
    delete_todo 3 all_todos_init = (Ok {| deleted := todo |}, before ++ after).
Proof.
  apply (delete_todo_removes 3 all_todos_init).
  eexists. split.
  - apply list_elem_of_In. simpl. right. right. left. reflexivity.
  - reflexivity.
Defined.

(** *** Update *)

(** C5.  [update_todo] on the first record with the given id overwrites
    the fields the patch carries and keeps the others, changes no other
    record, and returns the updated record; with no such record it
    answers 404 and changes nothing. *)
Theorem update_todo_patch todo_id updated_todo all_todos :
  ((∀ todo, todo ∈ all_todos → Todo.todo_id todo ≠ todo_id) →
   update_todo todo_id updated_todo all_todos =
     (Raise (HTTPException 404 "Todo not found"), all_todos)) ∧
  (∀ index todo,
     all_todos !! index = Some todo →
     Todo.todo_id todo = todo_id →
     (∀ j y, all_todos !! j = Some y → (j < index)%nat → Todo.todo_id y ≠ todo_id) →
     ∃ todo',
       update_todo todo_id updated_todo all_todos =
         (Ok todo', <[index := todo']> all_todos) ∧
       Todo.todo_id todo' = Todo.todo_id todo ∧
       Todo.todo_name todo' =
         default (Todo.todo_name todo) (TodoUpdate.todo_name updated_todo) ∧
       Todo.todo_description todo' =
         default (Todo.todo_description todo)
                 (TodoUpdate.todo_description updated_todo) ∧
       Todo.priority todo' =
         default (Todo.priority todo) (TodoUpdate.priority updated_todo) ∧
       (<[index := todo']> all_todos) !! index = Some todo' ∧
       length (<[index := todo']> all_todos) = length all_todos ∧
       ∀ j, j ≠ index → (<[index := todo']> all_todos) !! j = all_todos !! j).
Proof.
  split.
  - intros Hnone%find_todo_None. by rewrite update_todo_unfold, Hnone.
  - intros index todo Hl Hid Hfirst.
    assert (find_todo todo_id all_todos = Some (index, todo)) as Hfind
      by by apply find_todo_Some.
    exists (apply_update updated_todo todo).
    rewrite update_todo_unfold, Hfind. split_and!.
    + done.
    + apply apply_update_todo_id.
    + apply apply_update_todo_name.
    + apply apply_update_todo_description.
    + apply apply_update_priority.
    + apply list_lookup_insert_eq. by eapply lookup_lt_Some.
    + apply length_insert.
    + intros j Hj. by apply list_lookup_insert_ne.
Qed.

(** A patch that carries only [priority], on the seeded store. *)
Lemma update_todo_patch_witness :
  let patch := {| TodoUpdate.todo_name := None;
                  TodoUpdate.todo_description := None;
                  TodoUpdate.priority := Some high |} in
  update_todo 9 patch all_todos_init =
    (Raise (HTTPException 404 "Todo not found"), all_todos_init) ∧
  ∃ todo',
    fst (update_todo 2 patch all_todos_init) = Ok todo' ∧
    Todo.todo_id todo' = 2 ∧
    Todo.todo_name todo' = (utf8 "Read") ∧
    Todo.todo_description todo' = (utf8 "Library") ∧
    Todo.priority todo' = high.
Proof.
  intros patch. split.
  - apply (proj1 (update_todo_patch 9 patch all_todos_init)).
    intros todo Hin%list_elem_of_In. simpl in Hin.
    repeat (destruct Hin as [<-|Hin]; [by vm_compute|]). destruct Hin.
  - destruct (proj2 (update_todo_patch 2 patch all_todos_init) 1%nat
                {| Todo.todo_id := 2; Todo.todo_name := utf8 "Read";
                   Todo.todo_description := utf8 "Library"; Todo.priority := low |})
      as (todo' & -> & Hid & Hn & Hd & Hp & _).
    + reflexivity.
    + reflexivity.
    + intros j y Hj Hlt. assert (j = 0%nat) as -> by lia.
      injection Hj as <-. by vm_compute.
    + exists todo'. by rewrite Hid, Hn, Hd, Hp.
Defined.

(** *** The ids in the store *)

Lemma ids_snoc all_todos todo :
  ids (all_todos ++ [todo]) = ids all_todos ++ [Todo.todo_id todo].
Proof. unfold ids. by rewrite fmap_app. Qed.

(** The id [create_todo] computes is above every stored id. *)
Lemma new_todo_id_fresh all_todos i :
  i ∈ ids all_todos → i < max_default (ids all_todos) 0 + 1.
Proof. intros Hi%(max_default_upper _ 0). lia. Qed.

Lemma ids_create todo all_todos :
  ids (snd (create_todo todo all_todos)) =
    ids all_todos ++ [max_default (ids all_todos) 0 + 1].
Proof. rewrite create_todo_unfold. simpl. by rewrite ids_snoc. Qed.

(** [update_todo] leaves every id where it is. *)
Lemma ids_update todo_id updated_todo all_todos :
  ids (snd (update_todo todo_id updated_todo all_todos)) = ids all_todos.
Proof.
  rewrite update_todo_unfold.
  destruct (find_todo todo_id all_todos) as [[index todo]|] eqn:Hfind; [|done].
  apply find_todo_Some in Hfind as (Hl & _ & _). simpl.
  unfold ids. rewrite list_fmap_insert, apply_update_todo_id.
  apply list_insert_id. by rewrite list_lookup_fmap, Hl.
Qed.

(** [delete_todo] leaves the store alone or removes one position. *)
Lemma delete_todo_store todo_id all_todos :
  snd (delete_todo todo_id all_todos) = all_todos ∨
  ∃ index, (index < length all_todos)%nat ∧
           snd (delete_todo todo_id all_todos) = delete index all_todos.
Proof.
  rewrite delete_todo_unfold.
  destruct (find_todo todo_id all_todos) as [[index todo]|] eqn:Hfind; [|by left].
  apply find_todo_Some in Hfind as (Hl & _ & _).
  right. exists index. split; [by eapply lookup_lt_Some|done].
Qed.

Lemma ids_delete_sublist todo_id all_todos :
  ids (snd (delete_todo todo_id all_todos)) `sublist_of` ids all_todos.
Proof.
  destruct (delete_todo_store todo_id all_todos) as [->|(index & _ & ->)]; [done|].
  unfold ids. rewrite list_fmap_delete. apply sublist_delete.
Qed.

Lemma NoDup_ids_create todo all_todos :
  NoDup (ids all_todos) → NoDup (ids (snd (create_todo todo all_todos))).
Proof.
  intros Hnd. rewrite ids_create. apply NoDup_app. split_and!.
  - done.
  - intros i Hi%new_todo_id_fresh ->%list_elem_of_singleton. lia.
  - apply NoDup_singleton.
Qed.

Lemma NoDup_ids_delete todo_id all_todos :
  NoDup (ids all_todos) → NoDup (ids (snd (delete_todo todo_id all_todos))).
Proof. intros Hnd. eapply sublist_NoDup; [done|apply ids_delete_sublist]. Qed.

(** Every request keeps the ids pairwise distinct, and positive. *)
Lemma serve_NoDup all_todos r :
  NoDup (ids all_todos) → NoDup (ids (serve all_todos r)).
Proof.
  destruct r as [todo|todo_id updated_todo|todo_id]; cbn [serve].
  - apply NoDup_ids_create.
  - by rewrite ids_update.
  - apply NoDup_ids_delete.
Qed.

Lemma serve_positive all_todos r :
  Forall (λ i, 0 < i) (ids all_todos) → Forall (λ i, 0 < i) (ids (serve all_todos r)).
Proof.
  intros Hpos. destruct r as [todo|todo_id updated_todo|todo_id]; cbn [serve].
  - rewrite ids_create. apply Forall_app. split; [done|].
    apply Forall_singleton.
    destruct (decide (ids all_todos = [])) as [->|Hne]; [done|].
    pose proof (max_default_elem _ 0 Hne) as Hin.
    rewrite Forall_forall in Hpos. apply Hpos in Hin. lia.
  - by rewrite ids_update.
  - rewrite Forall_forall in Hpos. apply Forall_forall. intros i Hi.
    eapply Hpos, elem_of_sublist; [done|apply ids_delete_sublist].
Qed.

Lemma all_todos_init_NoDup : NoDup (ids all_todos_init).
Proof. exact (bool_decide_unpack (NoDup (ids all_todos_init)) I). Qed.

(** Every store the service can reach has pairwise distinct, positive
    ids: the seeded store has, and every request keeps it so. *)
Lemma reachable_ids all_todos :
  reachable all_todos →
  NoDup (ids all_todos) ∧ Forall (λ i, 0 < i) (ids all_todos).
Proof.
  intros [requests <-].
  induction requests as [|r requests IH] using rev_ind.
  - split.
    + apply all_todos_init_NoDup.
    + apply Forall_forall. intros i Hi%list_elem_of_In. simpl in Hi. lia.
  - rewrite foldl_snoc. destruct IH as [Hnd Hpos].
    split; [by apply serve_NoDup|by apply serve_positive].
Qed.

(** C9.  On a store whose ids are pairwise distinct, each of
    [create_todo], [update_todo] and [delete_todo] leaves a store whose
    ids are pairwise distinct: the created id is above every stored id,
    an update changes no id, and a delete removes at most one record. *)
Theorem todo_ids_unique_preserved all_todos :
  NoDup (ids all_todos) →
  (∀ todo, ∃ new_todo,
     create_todo todo all_todos = (Ok new_todo, all_todos ++ [new_todo]) ∧
     (∀ i, i ∈ ids all_todos → i < Todo.todo_id new_todo) ∧
     NoDup (ids (all_todos ++ [new_todo]))) ∧
  (∀ todo_id updated_todo,
     ids (snd (update_todo todo_id updated_todo all_todos)) = ids all_todos ∧
     NoDup (ids (snd (update_todo todo_id updated_todo all_todos)))) ∧
  (∀ todo_id,
     (snd (delete_todo todo_id all_todos) = all_todos ∨
      ∃ index, (index < length all_todos)%nat ∧
               snd (delete_todo todo_id all_todos) = delete index all_todos) ∧
     NoDup (ids (snd (delete_todo todo_id all_todos)))).
Proof.
  intros Hnd. split_and!.
  - intros todo. eexists. split; [apply create_todo_unfold|]. split.
    + intros i. apply new_todo_id_fresh.
    + by apply (NoDup_ids_create todo) in Hnd.
  - intros todo_id updated_todo. by rewrite ids_update.
  - intros todo_id. split; [apply delete_todo_store|by apply NoDup_ids_delete].
Qed.

Lemma todo_ids_unique_preserved_witness :
  let todo := {| TodoCreate.todo_name := utf8 "Write"; TodoCreate.todo_description := utf8 "Desk";
                 TodoCreate.priority := high |} in
  NoDup (ids all_todos_init) ∧
  NoDup (ids (snd (create_todo todo all_todos_init))) ∧
  NoDup (ids (snd (delete_todo 3 all_todos_init))).
Proof.
  intros todo.
  pose proof all_todos_init_NoDup as Hnd.
  destruct (todo_ids_unique_preserved all_todos_init Hnd) as (Hc & _ & Hd).
  split_and!.
  - exact Hnd.
  - destruct (Hc todo) as (new_todo & -> & _ & Hnew). exact Hnew.
  - apply Hd.
Defined.

(** *** The scenario of the seeded store *)

(** [DELETE /todos/3] removes "Shop", [GET /todos] then lists the ids
    1, 2, 4, 5 in that order, and a following [POST /todos] creates id 6. *)
Example seeded_scenario :
  let body := {| TodoCreateBody.todo_name := Value (utf8 "Write");
                 TodoCreateBody.todo_description := Value (utf8 "Desk");
                 TodoCreateBody.priority := Absent |} in
  let '(r1, s1) := delete_todo 3 all_todos_init in
  let '(r2, s2) := get_todos None s1 in
  let '(r3, s3) := post_todos body s2 in
  (Todo.todo_name ∘ deleted <$> (match r1 with Ok d => Some d | _ => None end))
    = Some (utf8 "Shop") ∧
  (match r2 with Ok l => ids l | _ => [] end) = [1; 2; 4; 5] ∧
  (match r3 with Ok t => Some (Todo.todo_id t, Todo.priority t) | _ => None end)
    = Some (6, low) ∧
  ids s3 = [1; 2; 4; 5; 6].
Proof. by vm_compute. Qed.

End todo_api.

(** * Further properties of the item API *)

Section item_api_more.
Import Py ItemApi.
Implicit Types items : list Item.

(** A slice from 0 to a non-negative stop is [take]. *)
Lemma slice_from_0_nonneg {A} (l : list A) stop :
  0 ≤ stop → slice l 0 stop = take (Z.to_nat stop) l.
Proof.
  intros Hstop. rewrite slice_from_0. unfold adjust_index.
  rewrite decide_False by lia.
  destruct (Z.min_spec stop (len l)) as [[_ ->]|[Hle ->]]; [done|].
  unfold len in *. rewrite Nat2Z.id.
  by rewrite !take_ge by lia.
Qed.

(** X1.  For a non-negative [item_id], [get_item] is a lookup by position:
    it answers with the item stored at that position if there is one and
    with 404 "Item not found" otherwise, and never changes the list. *)
Theorem get_item_nonnegative items item_id :
  0 ≤ item_id →
  get_item item_id items =
    (match items !! Z.to_nat item_id with
     | Some x => Ok x
     | None => Raise (HTTPException 404 "Item not found")
     end, items).
Proof.
  intros Hid.
  destruct (items !! Z.to_nat item_id) as [x|] eqn:Hx.
  - rewrite <-(Z2Nat.id item_id) at 1 by done. by apply get_item_in_range.
  - apply lookup_ge_None in Hx. apply get_item_not_found. unfold len. lia.
Qed.

Lemma get_item_nonnegative_witness :
  let a := {| text := Some (utf8 "a"); is_done := false |} in
  let b := {| text := None; is_done := true |} in
  get_item 1 [a; b] = (Ok b, [a; b]) ∧
  get_item 2 [a; b] = (Raise (HTTPException 404 "Item not found"), [a; b]).
Proof.
  intros a b. split.
  - apply (get_item_nonnegative [a; b] 1). lia.
  - apply (get_item_nonnegative [a; b] 2). lia.
Defined.

(** The store after a run of [POST /items] requests. *)
Lemma create_items_store items new :
  foldl (λ items item, snd (create_item item items)) items new = items ++ new.
Proof.
  revert items. induction new as [|item new IH]; intros items; simpl.
  - by rewrite app_nil_r.
  - rewrite IH. by rewrite <-app_assoc.
Qed.

(** X2.  A created item is found at the position that was the length of
    the list before the request (and at -1, counted from the end). *)
Theorem create_item_then_get_item items item :
  let items' := snd (create_item item items) in
  get_item (len items) items' = (Ok item, items') ∧
  get_item (-1) items' = (Ok item, items').
Proof.
  simpl. split.
  - unfold len. apply get_item_in_range. apply list_lookup_middle. done.
  - rewrite get_item_unfold, len_app.
    pose proof (len_nonneg items). rewrite decide_True by (unfold len; simpl; lia).
    rewrite getitem_negative by (rewrite len_app; unfold len; simpl; lia).
    rewrite len_app. replace (len items + len [item] + -1) with (Z.of_nat (length items))
      by (unfold len; simpl; lia).
    rewrite (getitem_nonneg _ _ item); [done|]. by apply list_lookup_middle.
Qed.

(** X3.  Positions are stable: no later sequence of [POST /items]
    requests changes what [GET /items/i] answers for a position that
    already holds an item. *)
Theorem get_item_stable items new (i : nat) x :
  items !! i = Some x →
  fst (get_item (Z.of_nat i)
         (foldl (λ items item, snd (create_item item items)) items new)) = Ok x.
Proof.
  intros Hi. rewrite create_items_store.
  by rewrite (get_item_in_range _ _ x) by by apply lookup_app_l_Some.
Qed.

Lemma get_item_stable_witness :
  let a := {| text := Some (utf8 "a"); is_done := false |} in
  let b := {| text := None; is_done := true |} in
  fst (get_item 0 (foldl (λ items item, snd (create_item item items)) [a] [b; a]))
    = Ok a.
Proof. intros a b. apply (get_item_stable [a] [b; a] 0 a). reflexivity. Defined.

(** X4.  Without a [limit] parameter, [GET /items] answers with the first
    ten items, which is the whole list while it has at most ten; for any
    non-negative [limit] it answers with the first [limit] items. *)
Theorem list_items_default_limit items :
  list_items_query None items = (Ok (take 10 items), items) ∧
  (len items ≤ 10 → list_items_query None items = (Ok items, items)) ∧
  (∀ limit, 0 ≤ limit →
     list_items_query (Some limit) items = (Ok (take (Z.to_nat limit) items), items)).
Proof.
  unfold list_items_query, list_items, bind, get, ret. simpl. split_and!.
  - by rewrite slice_from_0_nonneg by lia.
  - intros Hlen. rewrite slice_from_0_nonneg by lia.
    by rewrite take_ge by (unfold len in Hlen; lia).
  - intros limit Hlimit. by rewrite slice_from_0_nonneg.
Qed.

Lemma list_items_default_limit_witness :
  let a := {| text := Some (utf8 "a"); is_done := false |} in
  list_items_query None (replicate 12 a) = (Ok (replicate 10 a), replicate 12 a) ∧
  list_items_query None [a; a] = (Ok [a; a], [a; a]) ∧
  list_items_query (Some 1) [a; a] = (Ok [a], [a; a]).
Proof.
  intros a.
  destruct (list_items_default_limit (replicate 12 a)) as (H10 & _ & _).
  destruct (list_items_default_limit [a; a]) as (_ & Hall & Hlimit).
  split_and!.
  - exact H10.
  - apply Hall. by vm_compute.
  - apply (Hlimit 1). lia.
Defined.

End item_api_more.

(** * Further properties of the todo API *)

Section todo_api_more.
Import Py TodoApi.
Implicit Types all_todos : list Todo.t.
Implicit Types todo_id : Z.

(** *** The search loop, one record at a time *)

Lemma find_todo_cons todo_id x all_todos :
  find_todo todo_id (x :: all_todos) =
    if decide (Todo.todo_id x = todo_id) then Some (0%nat, x)
    else prod_map S id <$> find_todo todo_id all_todos.
Proof. done. Qed.

(** What [get_todo] answers, from what the loop finds. *)
Lemma get_todo_fst todo_id all_todos :
  fst (get_todo todo_id all_todos) =
    match snd <$> find_todo todo_id all_todos with
    | Some todo => Ok todo
    | None => Raise (HTTPException 404 "Todo not found")
    end.
Proof.
  rewrite get_todo_unfold. by destruct (find_todo _ _) as [[??]|].
Qed.

Lemma get_todo_snd todo_id all_todos :
  snd (get_todo todo_id all_todos) = all_todos.
Proof.
  rewrite get_todo_unfold. by destruct (find_todo _ _) as [[??]|].
Qed.

(** A record whose id no earlier record has is the one the loop finds. *)
Lemma find_todo_snoc_fresh todo_id all_todos todo :
  (∀ y, y ∈ all_todos → Todo.todo_id y ≠ todo_id) →
  Todo.todo_id todo = todo_id →
  find_todo todo_id (all_todos ++ [todo]) = Some (length all_todos, todo).
Proof.
  intros Hfresh Hid. apply find_todo_Some. split_and!.
  - by apply list_lookup_middle.
  - done.
  - intros j y Hj Hlt. apply Hfresh.
    rewrite lookup_app_l in Hj by done. by eapply list_elem_of_lookup_2.
Qed.

Lemma elem_of_ids all_todos todo :
  todo ∈ all_todos → Todo.todo_id todo ∈ ids all_todos.
Proof. intros. unfold ids. by apply list_elem_of_fmap_2. Qed.

(** The id of a created todo is the id of no stored record. *)
Lemma new_todo_id_not_stored all_todos y :
  y ∈ all_todos → Todo.todo_id y ≠ max_default (ids all_todos) 0 + 1.
Proof. intros Hy%elem_of_ids%new_todo_id_fresh. lia. Qed.

Lemma find_todo_created all_todos new_todo :
  Todo.todo_id new_todo = max_default (ids all_todos) 0 + 1 →
  find_todo (Todo.todo_id new_todo) (all_todos ++ [new_todo]) =
    Some (length all_todos, new_todo).
Proof.
  intros Hid. apply find_todo_snoc_fresh; [|done].
  intros y Hy. rewrite Hid. by apply new_todo_id_not_stored.
Qed.

(** *** Lookup *)

(** X5.  [get_todo] answers with the first record that has the id and
    leaves the store alone. *)
Theorem get_todo_found todo_id all_todos :
  (∃ todo, todo ∈ all_todos ∧ Todo.todo_id todo = todo_id) →
  ∃ before todo after,
    all_todos = before ++ todo :: after ∧
    Todo.todo_id todo = todo_id ∧
    (∀ y, y ∈ before → Todo.todo_id y ≠ todo_id) ∧
    get_todo todo_id all_todos = (Ok todo, all_todos).
Proof.
  intros (t & Hin & Hid).
  destruct (find_todo_is_Some _ _ _ Hin Hid) as [[index todo] Hfind].
  pose proof (find_todo_split _ _ _ _ Hfind) as (Hsplit & _ & Hbefore).
  apply find_todo_Some in Hfind as Hspec. destruct Hspec as (_ & Htid & _).
  exists (take index all_todos), todo, (drop (S index) all_todos).
  split_and!; [done..|].
  by rewrite get_todo_unfold, Hfind.
Qed.

Lemma get_todo_found_witness :
  ∃ before todo after,
    all_todos_init = before ++ todo :: after ∧
    Todo.todo_id todo = 4 ∧
    (∀ y, y ∈ before → Todo.todo_id y ≠ 4) ∧
    get_todo 4 all_todos_init = (Ok todo, all_todos_init).
Proof.
  apply (get_todo_found 4 all_todos_init).
  eexists. split.
  - apply list_elem_of_In. simpl. right. right. right. left. reflexivity.
  - reflexivity.
Defined.

(** X6.  [get_todo] on an id no record has answers 404 "Todo not found"
    and leaves the store alone. *)
Theorem get_todo_missing todo_id all_todos :
  (∀ todo, todo ∈ all_todos → Todo.todo_id todo ≠ todo_id) →
  get_todo todo_id all_todos =
    (Raise (HTTPException 404 "Todo not found"), all_todos).
Proof.
  intros Hnone%find_todo_None. by rewrite get_todo_unfold, Hnone.
Qed.

Lemma get_todo_missing_witness :
  get_todo 0 all_todos_init =
    (Raise (HTTPException 404 "Todo not found"), all_todos_init).
Proof.
  apply (get_todo_missing 0 all_todos_init).
  intros todo Hin%list_elem_of_In. simpl in Hin.
  repeat (destruct Hin as [<-|Hin]; [by vm_compute|]). destruct Hin.
Defined.

(** Two stored records with the same id are the same record when ids are
    pairwise distinct. *)
Lemma NoDup_ids_inj all_todos x y :
  NoDup (ids all_todos) → x ∈ all_todos → y ∈ all_todos →
  Todo.todo_id x = Todo.todo_id y → x = y.
Proof.
  intros Hnd (i & Hi)%list_elem_of_lookup (j & Hj)%list_elem_of_lookup Hid.
  assert (i = j) as ->.
  { eapply (NoDup_lookup (ids all_todos)); [done|..]; unfold ids.
    - by rewrite list_lookup_fmap, Hi.
    - by rewrite list_lookup_fmap, Hj, Hid. }
  congruence.
Qed.

(** X7.  While ids are pairwise distinct, [get_todo] on the id of a stored
    record answers with that very record. *)
Theorem get_todo_unique all_todos todo :
  NoDup (ids all_todos) → todo ∈ all_todos →
  get_todo (Todo.todo_id todo) all_todos = (Ok todo, all_todos).
Proof.
  intros Hnd Hin.
  destruct (find_todo_is_Some _ _ _ Hin eq_refl) as [[index found] Hfind].
  rewrite get_todo_unfold, Hfind.
  apply find_todo_Some in Hfind as (Hl & Hid & _).
  f_equal. f_equal. eapply NoDup_ids_inj; [done| |done|done].
  by eapply list_elem_of_lookup_2.
Qed.

Lemma get_todo_unique_witness :
  let shop := {| Todo.todo_id := 3; Todo.todo_name := utf8 "Shop";
                 Todo.todo_description := utf8 "Mall"; Todo.priority := high |} in
  get_todo 3 all_todos_init = (Ok shop, all_todos_init).
Proof.
  intros shop. apply (get_todo_unique all_todos_init shop).
  - apply all_todos_init_NoDup.
  - apply list_elem_of_In. simpl. right. right. left. reflexivity.
Defined.

(** X8.  [get_todos] leaves the store alone.  Without [first_n] it
    answers with the whole store; with [first_n >= 0] with its first
    [first_n] records; with [first_n < 0] with all but its last
    [- first_n] records. *)
Theorem get_todos_prefix all_todos :
  get_todos None all_todos = (Ok all_todos, all_todos) ∧
  ∀ first_n,
    ∃ returned,
      get_todos (Some first_n) all_todos = (Ok returned, all_todos) ∧
      returned `prefix_of` all_todos ∧
      (0 ≤ first_n → returned = take (Z.to_nat first_n) all_todos) ∧
      (first_n < 0 →
       returned = take (length all_todos - Z.to_nat (- first_n)) all_todos).
Proof.
  split; [done|]. intros first_n.
  exists (slice all_todos 0 first_n). split_and!.
  - done.
  - rewrite slice_from_0. apply prefix_take.
  - apply slice_from_0_nonneg.
  - intros Hneg. rewrite slice_from_0. f_equal.
    unfold adjust_index, len. rewrite decide_True by done. lia.
Qed.

Lemma get_todos_prefix_witness :
  ids <$> (match fst (get_todos (Some 2) all_todos_init) with
           | Ok l => Some l | Raise _ => None end) = Some [1; 2] ∧
  ids <$> (match fst (get_todos (Some (-2)) all_todos_init) with
           | Ok l => Some l | Raise _ => None end) = Some [1; 2; 3] ∧
  ids <$> (match fst (get_todos (Some (-7)) all_todos_init) with
           | Ok l => Some l | Raise _ => None end) = Some [].
Proof.
  destruct (get_todos_prefix all_todos_init) as [_ Hn].
  split_and!.
  - destruct (Hn 2) as (r & -> & _ & Hr & _). by rewrite Hr by lia.
  - destruct (Hn (-2)) as (r & -> & _ & _ & Hr). by rewrite Hr by lia.
  - destruct (Hn (-7)) as (r & -> & _ & _ & Hr). by rewrite Hr by lia.
Defined.

(** *** Create, then look up or delete *)

(** X9.  A created todo can be looked up under the id it was given:
    [get_todo] answers with exactly the record [create_todo] returned. *)
Theorem create_todo_then_get_todo todo all_todos :
  ∃ new_todo all_todos',
    create_todo todo all_todos = (Ok new_todo, all_todos') ∧
    get_todo (Todo.todo_id new_todo) all_todos' = (Ok new_todo, all_todos').
Proof.
  eexists _, _. split; [apply create_todo_unfold|].
  rewrite get_todo_unfold.
  by rewrite find_todo_created.
Qed.

(** X10.  Deleting a todo right after it was created undoes the
    creation: the answer carries the created record, and the store is
    again the one before the creation. *)
Theorem create_todo_then_delete_todo todo all_todos :
  ∃ new_todo all_todos',
    create_todo todo all_todos = (Ok new_todo, all_todos') ∧
    delete_todo (Todo.todo_id new_todo) all_todos' =
      (Ok {| deleted := new_todo |}, all_todos).
Proof.
  eexists _, _. split; [apply create_todo_unfold|].
  rewrite delete_todo_unfold, find_todo_created by done.
  f_equal. rewrite delete_take_drop, take_app_length.
  rewrite drop_ge by (rewrite length_app; simpl; lia).
  by rewrite app_nil_r.
Qed.

(** X11.  A lookup that succeeds keeps its answer when a todo is
    created. *)
Theorem get_todo_after_create_todo todo todo_id found all_todos :
  fst (get_todo todo_id all_todos) = Ok found →
  fst (get_todo todo_id (snd (create_todo todo all_todos))) = Ok found.
Proof.
  rewrite !get_todo_fst, create_todo_unfold. simpl.
  destruct (find_todo todo_id all_todos) as [[index t]|] eqn:Hfind; [|done].
  simpl. intros [= ->]. unfold find_todo in *.
  by rewrite (list_find_app_l _ _ _ _ _ Hfind).
Qed.

Lemma get_todo_after_create_todo_witness :
  let todo := {| TodoCreate.todo_name := utf8 "Write"; TodoCreate.todo_description := utf8 "Desk";
                 TodoCreate.priority := high |} in
  let read := {| Todo.todo_id := 2; Todo.todo_name := utf8 "Read";
                 Todo.todo_description := utf8 "Library"; Todo.priority := low |} in
  fst (get_todo 2 (snd (create_todo todo all_todos_init))) = Ok read.
Proof.
  intros todo read.
  apply (get_todo_after_create_todo todo 2 read all_todos_init). reflexivity.
Defined.

(** *** Delete, then look up *)

(** The store after [delete_todo], one record at a time. *)
Lemma delete_todo_store_cons todo_id x all_todos :
  snd (delete_todo todo_id (x :: all_todos)) =
    if decide (Todo.todo_id x = todo_id) then all_todos
    else x :: snd (delete_todo todo_id all_todos).
Proof.
  rewrite !delete_todo_unfold, find_todo_cons.
  case_decide; [done|].
  by destruct (find_todo todo_id all_todos) as [[??]|].
Qed.

(** The store after [update_todo], one record at a time. *)
Lemma update_todo_store_cons todo_id updated_todo x all_todos :
  snd (update_todo todo_id updated_todo (x :: all_todos)) =
    if decide (Todo.todo_id x = todo_id) then apply_update updated_todo x :: all_todos
    else x :: snd (update_todo todo_id updated_todo all_todos).
Proof.
  rewrite !update_todo_unfold, find_todo_cons.
  case_decide; [done|].
  by destruct (find_todo todo_id all_todos) as [[??]|].
Qed.

Lemma find_todo_snd_cons todo_id x all_todos :
  snd <$> find_todo todo_id (x :: all_todos) =
    if decide (Todo.todo_id x = todo_id) then Some x
    else snd <$> find_todo todo_id all_todos.
Proof.
  rewrite find_todo_cons. case_decide; [done|].
  by destruct (find_todo todo_id all_todos) as [[??]|].
Qed.

(** X12.  While ids are pairwise distinct, a deleted id is gone: after
    [delete_todo], [get_todo] on the same id answers 404. *)
Theorem delete_todo_then_get_todo todo_id all_todos :
  NoDup (ids all_todos) →
  fst (get_todo todo_id (snd (delete_todo todo_id all_todos))) =
    Raise (HTTPException 404 "Todo not found").
Proof.
  intros Hnd. rewrite get_todo_fst.
  replace (find_todo todo_id (snd (delete_todo todo_id all_todos))) with
    (@None (nat * Todo.t)); [done|].
  symmetry. apply find_todo_None.
  induction all_todos as [|x all_todos IH]; intros y.
  - by intros ?%elem_of_nil.
  - apply NoDup_cons in Hnd as [Hx Hnd].
    rewrite delete_todo_store_cons. case_decide as Hid.
    + intros Hy%elem_of_ids Heq. apply Hx. by rewrite Hid, <-Heq.
    + intros [->|Hy]%elem_of_cons; [done|]. by apply IH.
Qed.

Lemma delete_todo_then_get_todo_witness :
  fst (get_todo 3 (snd (delete_todo 3 all_todos_init))) =
    Raise (HTTPException 404 "Todo not found").
Proof.
  apply (delete_todo_then_get_todo 3 all_todos_init), all_todos_init_NoDup.
Defined.

(** X13.  Deleting one id does not change what a lookup of another id
    answers. *)
Theorem get_todo_after_delete_todo_other todo_id other_id all_todos :
  other_id ≠ todo_id →
  fst (get_todo other_id (snd (delete_todo todo_id all_todos))) =
    fst (get_todo other_id all_todos).
Proof.
  intros Hne. rewrite !get_todo_fst. f_equal.
  induction all_todos as [|x all_todos IH].
  - done.
  - rewrite delete_todo_store_cons, (find_todo_snd_cons _ x all_todos).
    case_decide as Hid.
    + by rewrite decide_False by congruence.
    + rewrite find_todo_snd_cons. case_decide; [done|]. apply IH.
Qed.

Lemma get_todo_after_delete_todo_other_witness :
  fst (get_todo 4 (snd (delete_todo 3 all_todos_init))) =
    fst (get_todo 4 all_todos_init).
Proof. apply (get_todo_after_delete_todo_other 3 4 all_todos_init). lia. Defined.

(** *** Update, then look up or update again *)

(** After an update the loop finds the updated record where it found the
    old one. *)
Lemma find_todo_updated todo_id updated_todo all_todos index todo :
  find_todo todo_id all_todos = Some (index, todo) →
  find_todo todo_id (<[index := apply_update updated_todo todo]> all_todos) =
    Some (index, apply_update updated_todo todo).
Proof.
  intros (Hl & Hid & Hfirst)%find_todo_Some. apply find_todo_Some. split_and!.
  - apply list_lookup_insert_eq. by eapply lookup_lt_Some.
  - by rewrite apply_update_todo_id.
  - intros j y Hj Hlt. rewrite list_lookup_insert_ne in Hj by lia. by eapply Hfirst.
Qed.

Lemma apply_update_idemp updated_todo todo :
  apply_update updated_todo (apply_update updated_todo todo) =
    apply_update updated_todo todo.
Proof.
  destruct updated_todo as [[?|] [?|] [?|]], todo; reflexivity.
Qed.

Lemma apply_update_empty updated_todo todo :
  TodoUpdate.todo_name updated_todo = None →
  TodoUpdate.todo_description updated_todo = None →
  TodoUpdate.priority updated_todo = None →
  apply_update updated_todo todo = todo.
Proof. unfold apply_update. by intros -> -> ->. Qed.

(** X14.  An update that succeeds is what the next lookup sees:
    [get_todo] on the same id answers with the record [update_todo]
    returned. *)
Theorem update_todo_then_get_todo todo_id updated_todo all_todos todo' all_todos' :
  update_todo todo_id updated_todo all_todos = (Ok todo', all_todos') →
  get_todo todo_id all_todos' = (Ok todo', all_todos').
Proof.
  rewrite update_todo_unfold.
  destruct (find_todo todo_id all_todos) as [[index todo]|] eqn:Hfind; [|done].
  intros [= <- <-]. rewrite get_todo_unfold.
  by rewrite (find_todo_updated _ _ _ _ _ Hfind).
Qed.

Lemma update_todo_then_get_todo_witness :
  let patch := {| TodoUpdate.todo_name := Some (utf8 "Read more");
                  TodoUpdate.todo_description := None;
                  TodoUpdate.priority := None |} in
  let todo' := {| Todo.todo_id := 2; Todo.todo_name := utf8 "Read more";
                  Todo.todo_description := utf8 "Library"; Todo.priority := low |} in
  get_todo 2 (snd (update_todo 2 patch all_todos_init)) =
    (Ok todo', snd (update_todo 2 patch all_todos_init)).
Proof.
  intros patch todo'.
  apply (update_todo_then_get_todo 2 patch all_todos_init). reflexivity.
Defined.

(** X15.  [update_todo] is idempotent: sending the same patch for the
    same id a second time gives the same answer and the same store as
    sending it once. *)
Theorem update_todo_idempotent todo_id updated_todo all_todos :
  update_todo todo_id updated_todo
    (snd (update_todo todo_id updated_todo all_todos)) =
  update_todo todo_id updated_todo all_todos.
Proof.
  rewrite (update_todo_unfold _ _ all_todos).
  destruct (find_todo todo_id all_todos) as [[index todo]|] eqn:Hfind; simpl.
  - rewrite update_todo_unfold, (find_todo_updated _ _ _ _ _ Hfind).
    by rewrite apply_update_idemp, list_insert_insert_eq.
  - by rewrite update_todo_unfold, Hfind.
Qed.

(** X16.  A patch that carries no field changes nothing: [update_todo]
    with it answers, and leaves the store, as [get_todo] does. *)
Theorem update_todo_empty_patch todo_id updated_todo all_todos :
  TodoUpdate.todo_name updated_todo = None →
  TodoUpdate.todo_description updated_todo = None →
  TodoUpdate.priority updated_todo = None →
  update_todo todo_id updated_todo all_todos = get_todo todo_id all_todos.
Proof.
  intros Hn Hd Hp. rewrite update_todo_unfold, get_todo_unfold.
  destruct (find_todo todo_id all_todos) as [[index todo]|] eqn:Hfind; [|done].
  rewrite apply_update_empty by done.
  apply find_todo_Some in Hfind as (Hl & _ & _).
  by rewrite list_insert_id.
Qed.

Lemma update_todo_empty_patch_witness :
  let patch := {| TodoUpdate.todo_name := None;
                  TodoUpdate.todo_description := None;
                  TodoUpdate.priority := None |} in
  update_todo 5 patch all_todos_init = get_todo 5 all_todos_init ∧
  update_todo 6 patch all_todos_init = get_todo 6 all_todos_init.
Proof.
  intros patch. split.
  - apply (update_todo_empty_patch 5 patch all_todos_init); reflexivity.
  - apply (update_todo_empty_patch 6 patch all_todos_init); reflexivity.
Defined.

(** X17.  Updating one id does not change what a lookup of another id
    answers. *)
Theorem get_todo_after_update_todo_other todo_id other_id updated_todo all_todos :
  other_id ≠ todo_id →
  fst (get_todo other_id (snd (update_todo todo_id updated_todo all_todos))) =
    fst (get_todo other_id all_todos).
Proof.
  intros Hne. rewrite !get_todo_fst. f_equal.
  induction all_todos as [|x all_todos IH].
  - done.
  - rewrite update_todo_store_cons, (find_todo_snd_cons _ x all_todos).
    case_decide as Hid.
    + rewrite find_todo_snd_cons, apply_update_todo_id.
      by rewrite !decide_False by congruence.
    + rewrite find_todo_snd_cons. case_decide; [done|]. apply IH.
Qed.

Lemma get_todo_after_update_todo_other_witness :
  let patch := {| TodoUpdate.todo_name := Some (utf8 "Read more");
                  TodoUpdate.todo_description := None;
                  TodoUpdate.priority := Some high |} in
  fst (get_todo 4 (snd (update_todo 2 patch all_todos_init))) =
    fst (get_todo 4 all_todos_init).
Proof.
  intros patch.
  apply (get_todo_after_update_todo_other 2 4 patch all_todos_init). lia.
Defined.

(** *** The order of the ids *)

Lemma StronglySorted_delete {A} (R : relation A) (l : list A) i :
  StronglySorted R l → StronglySorted R (delete i l).
Proof.
  intros Hl. revert i. induction Hl as [|x l Hl IH Hx]; intros [|i]; simpl.
  - constructor.
  - constructor.
  - done.
  - constructor; [apply IH|]. by apply Forall_delete.
Qed.

(** Every request keeps the ids in increasing order. *)
Lemma serve_increasing all_todos r :
  StronglySorted Z.lt (ids all_todos) → StronglySorted Z.lt (ids (serve all_todos r)).
Proof.
  intros Hs. destruct r as [todo|todo_id updated_todo|todo_id]; cbn [serve].
  - rewrite ids_create. apply StronglySorted_app_2; [|done|repeat constructor].
    intros i j Hi%new_todo_id_fresh ->%list_elem_of_singleton. done.
  - by rewrite ids_update.
  - destruct (delete_todo_store todo_id all_todos) as [->|(index & _ & ->)]; [done|].
    unfold ids. rewrite list_fmap_delete. by apply StronglySorted_delete.
Qed.

(** On ids in increasing order the largest id is the last one. *)
Lemma max_default_increasing (l : list Z) d :
  StronglySorted Z.lt l → max_default l d = default d (last l).
Proof.
  destruct l as [|x l _] using rev_ind; [done|].
  intros Hs. rewrite last_snoc. simpl.
  assert (max_default (l ++ [x]) d ∈ l ++ [x]) as Hin
    by (apply max_default_elem; by destruct l).
  assert (x ≤ max_default (l ++ [x]) d) as Hub
    by (apply max_default_upper, elem_of_app; right; by left).
  apply elem_of_app in Hin as [Hin| ->%list_elem_of_singleton]; [|done].
  pose proof (StronglySorted_app_1_elem_of _ _ _ _ x Hs Hin) as Hlt.
  specialize (Hlt ltac:(by left)). lia.
Qed.

Lemma reachable_StronglySorted all_todos :
  reachable all_todos → StronglySorted Z.lt (ids all_todos).
Proof.
  intros [requests <-].
  induction requests as [|r requests IH] using rev_ind.
  - repeat constructor.
  - rewrite foldl_snoc. by apply serve_increasing.
Qed.

(** X18.  In every store the service can reach, the ids are positive and
    in strictly increasing order along the store; in particular they are
    pairwise distinct. *)
Theorem reachable_ids_increasing all_todos :
  reachable all_todos →
  StronglySorted Z.lt (ids all_todos) ∧
  NoDup (ids all_todos) ∧
  Forall (λ i, 0 < i) (ids all_todos).
Proof.
  intros Hr. split; [by apply reachable_StronglySorted|by apply reachable_ids].
Qed.

Lemma reachable_ids_increasing_witness :
  let todo := {| TodoCreate.todo_name := utf8 "Write"; TodoCreate.todo_description := utf8 "Desk";
                 TodoCreate.priority := high |} in
  let all_todos := foldl serve all_todos_init [Delete 5; Delete 2; Create todo; Create todo] in
  StronglySorted Z.lt (ids all_todos) ∧
  NoDup (ids all_todos) ∧
  Forall (λ i, 0 < i) (ids all_todos).
Proof.
  intros todo all_todos. apply (reachable_ids_increasing all_todos).
  by exists [Delete 5; Delete 2; Create todo; Create todo].
Defined.

(** X19.  On a store the service can reach, a created todo is given the
    id after the id of the last record of the store, and 1 when the store
    is empty. *)
Theorem create_todo_id_after_last todo all_todos :
  reachable all_todos →
  ∃ new_todo,
    fst (create_todo todo all_todos) = Ok new_todo ∧
    Todo.todo_id new_todo = default 0 (last (ids all_todos)) + 1.
Proof.
  intros Hs%reachable_StronglySorted.
  eexists. rewrite create_todo_unfold. split; [done|]. simpl.
  f_equal. by apply max_default_increasing.
Qed.

Lemma create_todo_id_after_last_witness :
  let todo := {| TodoCreate.todo_name := utf8 "Write"; TodoCreate.todo_description := utf8 "Desk";
                 TodoCreate.priority := high |} in
  let all_todos := foldl serve all_todos_init [Delete 5; Delete 2] in
  ∃ new_todo,
    fst (create_todo todo all_todos) = Ok new_todo ∧
    Todo.todo_id new_todo = default 0 (last (ids all_todos)) + 1.
Proof.
  intros todo all_todos. apply (create_todo_id_after_last todo all_todos).
  by exists [Delete 5; Delete 2].
Defined.

(** *** Validation of request bodies *)

Lemma Priority_of_value_Some v p :
  Priority_of_value v = Some p ↔ Priority_value p = v.
Proof.
  unfold Priority_of_value.
  repeat case_decide; destruct p; simpl; split; (congruence || lia).
Qed.

Lemma Priority_of_value_None v :
  Priority_of_value v = None ↔ ¬ (1 ≤ v ≤ 3).
Proof.
  unfold Priority_of_value. repeat case_decide; split; (congruence || lia).
Qed.

(** X20.  The integer values of [Priority] decode to the member they
    encode and to no other: 3, 2 and 1 are the only values accepted. *)
Theorem Priority_value_roundtrip v :
  (∀ p, Priority_of_value v = Some p ↔ Priority_value p = v) ∧
  (Priority_of_value v = None ↔ ¬ (1 ≤ v ≤ 3)).
Proof.
  split; [intros p; apply Priority_of_value_Some|apply Priority_of_value_None].
Qed.

Lemma check_str_todo_name (name : str) :
  check_str todo_name_field name = true ↔ (3 ≤ length name ≤ 512)%nat.
Proof.
  unfold check_str. simpl.
  rewrite andb_true_iff, !bool_decide_eq_true. done.
Qed.

(** What passes validation as a [TodoCreate]. *)
Lemma validate_TodoCreate_Ok body todo :
  validate_TodoCreate body = Ok todo ↔
    TodoCreateBody.todo_name body = Value (TodoCreate.todo_name todo) ∧
    (3 ≤ length (TodoCreate.todo_name todo) ≤ 512)%nat ∧
    TodoCreateBody.todo_description body = Value (TodoCreate.todo_description todo) ∧
    (TodoCreateBody.priority body = Absent ∧ TodoCreate.priority todo = low ∨
     TodoCreateBody.priority body = Value (Priority_value (TodoCreate.priority todo))).
Proof.
  unfold validate_TodoCreate.
  destruct body as [bn bd bp], todo as [n d p]; simpl.
  destruct bn as [| |name]; [by split; [|intros (? & _)]..|].
  destruct bd as [| |description]; [by split; [|intros (_ & _ & ? & _)]..|].
  rewrite andb_true_r.
  destruct (check_str todo_name_field name) eqn:Hname.
  - apply check_str_todo_name in Hname. destruct bp as [| |v].
    + split.
      * intros ?; simplify_eq. do 3 (split; [done|]). by left.
      * intros (? & _ & ? & [[_ ?]|?]); [|done]. by simplify_eq.
    + split; [done|]. by intros (_ & _ & _ & [[? _]|?]).
    + destruct (Priority_of_value v) as [q|] eqn:Hv.
      * apply Priority_of_value_Some in Hv. split.
        -- intros ?; simplify_eq. do 3 (split; [done|]). by right.
        -- intros (? & _ & ? & [[? _]|Hq]); [done|]. simplify_eq.
           by assert (q = p) as -> by by destruct q, p.
      * split; [done|]. intros (_ & _ & _ & [[? _]|Hq]); [done|]. simplify_eq.
        by rewrite (proj2 (Priority_of_value_Some _ p) eq_refl) in Hv.
  - split; [done|]. intros (? & Hlen%check_str_todo_name & _). simplify_eq. congruence.
Qed.

(** A body is refused with [RequestValidationError] or passes. *)
Lemma validate_TodoCreate_cases body :
  validate_TodoCreate body = Raise RequestValidationError ∨
  ∃ todo, validate_TodoCreate body = Ok todo.
Proof.
  unfold validate_TodoCreate. repeat case_match; eauto.
Qed.

Lemma post_todos_unfold body all_todos :
  post_todos body all_todos =
    match validate_TodoCreate body with
    | Ok todo => create_todo todo all_todos
    | Raise e => (Raise e, all_todos)
    end.
Proof. unfold post_todos, bind, lift. by destruct (validate_TodoCreate body). Qed.

(** X21.  [POST /todos] either refuses the body with a validation error
    and stores nothing, or appends one record that carries the body's
    name, description and priority ([low] when the member is missing).
    It accepts exactly the bodies with a name of 3 to 512 characters
    (code points), a description, and a priority that is missing or one
    of 1, 2, 3; a [null] for any of the three is refused. *)
Theorem post_todos_outcome body all_todos :
  (post_todos body all_todos = (Raise RequestValidationError, all_todos) ∨
   ∃ new_todo,
     post_todos body all_todos = (Ok new_todo, all_todos ++ [new_todo]) ∧
     TodoCreateBody.todo_name body = Value (Todo.todo_name new_todo) ∧
     TodoCreateBody.todo_description body = Value (Todo.todo_description new_todo) ∧
     (TodoCreateBody.priority body = Absent ∧ Todo.priority new_todo = low ∨
      TodoCreateBody.priority body = Value (Priority_value (Todo.priority new_todo)))) ∧
  ((∃ new_todo, fst (post_todos body all_todos) = Ok new_todo) ↔
   ∃ name description,
     TodoCreateBody.todo_name body = Value name ∧
     (3 ≤ length name ≤ 512)%nat ∧
     TodoCreateBody.todo_description body = Value description ∧
     (TodoCreateBody.priority body = Absent ∨
      ∃ v, TodoCreateBody.priority body = Value v ∧ 1 ≤ v ≤ 3)).
Proof.
  rewrite post_todos_unfold. split.
  - destruct (validate_TodoCreate_cases body) as [->|[todo Hv]]; [by left|].
    rewrite Hv. right. apply validate_TodoCreate_Ok in Hv as (Hn & _ & Hd & Hp).
    eexists. split; [apply create_todo_unfold|]. done.
  - split.
    + intros [new_todo Hnew].
      destruct (validate_TodoCreate body) as [todo|e] eqn:Hv; [|done].
      apply validate_TodoCreate_Ok in Hv as (Hn & Hlen & Hd & Hp).
      eexists _, _. do 3 (split; [done|]).
      destruct Hp as [[? _]|Hp]; [by left|right].
      eexists. split; [done|]. by destruct (TodoCreate.priority todo).
    + intros (name & description & Hn & Hlen & Hd & Hp).
      assert (∃ p, TodoCreateBody.priority body = Absent ∧ p = low ∨
                   TodoCreateBody.priority body = Value (Priority_value p))
        as [p Hp'].
      { destruct Hp as [?|(v & Hv & Hrange)]; [exists low; by left|].
        destruct (Priority_of_value v) as [p|] eqn:Hdec.
        - exists p. right. apply Priority_of_value_Some in Hdec. by rewrite Hdec.
        - by apply Priority_of_value_None in Hdec. }
      rewrite (proj2 (validate_TodoCreate_Ok body
                 {| TodoCreate.todo_name := name;
                    TodoCreate.todo_description := description;
                    TodoCreate.priority := p |})) by done.
      by eexists.
Qed.

(** A missing description, a [null] priority, a priority of 0 and a name
    of two characters (six bytes of UTF-8) are refused; a name of three
    characters with priority 2 is accepted. *)
Lemma post_todos_outcome_witness :
  let body name description priority :=
    {| TodoCreateBody.todo_name := Value (utf8 name);
       TodoCreateBody.todo_description := description;
       TodoCreateBody.priority := priority |} in
  let refused b :=
    ¬ (∃ new_todo, fst (post_todos b all_todos_init) = Ok new_todo) in
  refused (body "Write" Absent Absent) ∧
  refused (body "Write" (Value (utf8 "Desk")) Null) ∧
  refused (body "Write" (Value (utf8 "Desk")) (Value 0)) ∧
  refused (body "日本" (Value (utf8 "Desk")) (Value 2)) ∧
  (∃ new_todo,
     fst (post_todos (body "日本語" (Value (utf8 "Desk")) (Value 2)) all_todos_init)
       = Ok new_todo).
Proof.
  intros body refused. split_and!.
  - intros Hok.
    apply (proj2 (post_todos_outcome (body "Write" Absent Absent) all_todos_init))
      in Hok as (? & ? & _ & _ & [=] & _).
  - intros Hok.
    apply (proj2 (post_todos_outcome (body "Write" (Value (utf8 "Desk")) Null)
                    all_todos_init)) in Hok
      as (? & ? & _ & _ & _ & [[=]|(v & [=] & _)]).
  - intros Hok.
    apply (proj2 (post_todos_outcome (body "Write" (Value (utf8 "Desk")) (Value 0))
                    all_todos_init)) in Hok
      as (? & ? & _ & _ & _ & [[=]|(v & [= <-] & Hv)]). lia.
  - intros Hok.
    apply (proj2 (post_todos_outcome (body "日本" (Value (utf8 "Desk")) (Value 2))
                    all_todos_init)) in Hok
      as (name & ? & [= <-] & Hlen & _).
    vm_compute in Hlen. lia.
  - apply (proj2 (post_todos_outcome (body "日本語" (Value (utf8 "Desk")) (Value 2))
                    all_todos_init)).
    exists (utf8 "日本語"), (utf8 "Desk"). split; [done|]. split.
    + vm_compute. lia.
    + split; [done|]. right. exists 2. split; [done|lia].
Defined.

(** *** Validated updates *)

Lemma put_todos_unfold todo_id body all_todos :
  put_todos todo_id body all_todos =
    match validate_TodoUpdate body with
    | Ok updated_todo => update_todo todo_id updated_todo all_todos
    | Raise e => (Raise e, all_todos)
    end.
Proof. unfold put_todos, bind, lift. by destruct (validate_TodoUpdate body). Qed.

Lemma validate_TodoUpdate_cases body :
  validate_TodoUpdate body = Raise RequestValidationError ∨
  ∃ updated_todo, validate_TodoUpdate body = Ok updated_todo.
Proof. unfold validate_TodoUpdate. repeat case_match; eauto. Qed.

(** What passes validation as a [TodoUpdate]. *)
Lemma validate_TodoUpdate_Ok body updated_todo :
  validate_TodoUpdate body = Ok updated_todo →
  TodoUpdate.todo_name updated_todo = field_value (TodoUpdateBody.todo_name body) ∧
  TodoUpdate.todo_description updated_todo =
    field_value (TodoUpdateBody.todo_description body) ∧
  Priority_value <$> TodoUpdate.priority updated_todo =
    field_value (TodoUpdateBody.priority body) ∧
  ∀ name, TodoUpdate.todo_name updated_todo = Some name →
          (3 ≤ length name ≤ 512)%nat.
Proof.
  unfold validate_TodoUpdate.
  destruct (match field_value (TodoUpdateBody.todo_name body) with
            | Some name => check_str todo_name_field name
            | None => true
            end) eqn:Hname; [|done].
  assert (∀ name, field_value (TodoUpdateBody.todo_name body) = Some name →
                  (3 ≤ length name ≤ 512)%nat) as Hlen.
  { intros name Hn. rewrite Hn in Hname. by apply check_str_todo_name. }
  destruct (field_value (TodoUpdateBody.priority body)) as [v|] eqn:Hp.
  - destruct (Priority_of_value v) as [p|] eqn:Hv; [|done].
    apply Priority_of_value_Some in Hv. intros ?; simplify_eq. simpl.
    by split_and!.
  - intros ?; simplify_eq. simpl. by split_and!.
Qed.

(** X22.  [PUT /todos/{todo_id}] validates the body before it looks for
    the record: a name outside 3 to 512 characters (code points), or a
    priority outside 1, 2, 3, is refused with a validation error whether
    or not the id exists, and nothing is changed.  Any other body is
    handed to [update_todo] as the patch with the same fields, a missing
    or [null] member being [None]. *)
Theorem put_todos_outcome todo_id body all_todos :
  let bad_name :=
    ∃ name, TodoUpdateBody.todo_name body = Value name ∧
            ¬ (3 ≤ length name ≤ 512)%nat in
  let bad_priority :=
    ∃ v, TodoUpdateBody.priority body = Value v ∧ ¬ (1 ≤ v ≤ 3) in
  (bad_name ∨ bad_priority →
   put_todos todo_id body all_todos = (Raise RequestValidationError, all_todos)) ∧
  (¬ bad_name → ¬ bad_priority →
   ∃ updated_todo,
     put_todos todo_id body all_todos = update_todo todo_id updated_todo all_todos ∧
     TodoUpdate.todo_name updated_todo = field_value (TodoUpdateBody.todo_name body) ∧
     TodoUpdate.todo_description updated_todo =
       field_value (TodoUpdateBody.todo_description body) ∧
     Priority_value <$> TodoUpdate.priority updated_todo =
       field_value (TodoUpdateBody.priority body)).
Proof.
  intros bad_name bad_priority. rewrite put_todos_unfold. split.
  - intros Hbad.
    destruct (validate_TodoUpdate_cases body) as [->|[updated_todo Hv]]; [done|].
    apply validate_TodoUpdate_Ok in Hv as (Hn & _ & Hp & Hlen).
    destruct Hbad as [(name & Hname & Hbad)|(v & Hprio & Hbad)].
    + destruct Hbad. apply Hlen. by rewrite Hn, Hname.
    + destruct Hbad. rewrite Hprio in Hp.
      destruct (TodoUpdate.priority updated_todo) as [p|]; simplify_eq/=.
      by destruct p.
  - intros Hname Hprio.
    destruct (validate_TodoUpdate body) as [updated_todo|e] eqn:Hv.
    + apply validate_TodoUpdate_Ok in Hv as (Hn & Hd & Hp & _). by eexists.
    + exfalso. unfold validate_TodoUpdate in Hv.
      assert (∀ v, field_value (TodoUpdateBody.priority body) = Some v →
                   Priority_of_value v ≠ None) as Hdec.
      { intros v Hv' Hnone. apply Hprio. exists v. split.
        - by destruct (TodoUpdateBody.priority body); simplify_eq/=.
        - by apply Priority_of_value_None. }
      destruct (field_value (TodoUpdateBody.todo_name body)) as [name|] eqn:Hn.
      * destruct (check_str todo_name_field name) eqn:Hc.
        -- destruct (field_value (TodoUpdateBody.priority body)) as [v|]; [|done].
           specialize (Hdec v eq_refl). by destruct (Priority_of_value v).
        -- apply Hname. exists name. split.
           ++ by destruct (TodoUpdateBody.todo_name body); simplify_eq/=.
           ++ rewrite <-check_str_todo_name. congruence.
      * destruct (field_value (TodoUpdateBody.priority body)) as [v|]; [|done].
        specialize (Hdec v eq_refl). by destruct (Priority_of_value v).
Qed.

(** On an id no record has: a name of two characters is refused by
    validation, not answered with 404; a [null] name is no name. *)
Lemma put_todos_outcome_witness :
  let body name :=
    {| TodoUpdateBody.todo_name := name;
       TodoUpdateBody.todo_description := Absent;
       TodoUpdateBody.priority := Value 1 |} in
  put_todos 99 (body (Value (utf8 "ab"))) all_todos_init =
    (Raise RequestValidationError, all_todos_init) ∧
  put_todos 99 (body (Value (utf8 "日本"))) all_todos_init =
    (Raise RequestValidationError, all_todos_init) ∧
  ∃ updated_todo,
    put_todos 99 (body Null) all_todos_init =
      update_todo 99 updated_todo all_todos_init ∧
    TodoUpdate.todo_name updated_todo = None.
Proof.
  intros body. split_and!.
  - apply (proj1 (put_todos_outcome 99 (body (Value (utf8 "ab"))) all_todos_init)).
    left. exists (utf8 "ab"). split; [reflexivity|]. vm_compute. lia.
  - apply (proj1 (put_todos_outcome 99 (body (Value (utf8 "日本"))) all_todos_init)).
    left. exists (utf8 "日本"). split; [reflexivity|]. vm_compute. lia.
  - destruct (proj2 (put_todos_outcome 99 (body Null) all_todos_init))
      as (updated_todo & Hput & Hn & _).
    + by intros (name & ? & _).
    + intros (v & [= <-] & Hv). lia.
    + by exists updated_todo.
Defined.

(** *** The stores the HTTP interface can reach *)

(** An HTTP request leaves the store alone or changes it as one of the
    three handlers does on validated input. *)
Lemma serve_http_serve all_todos r :
  serve_http all_todos r = all_todos ∨ ∃ r', serve_http all_todos r = serve all_todos r'.
Proof.
  destruct r as [todo_id|first_n|body|todo_id body|todo_id]; cbn [serve_http].
  - left. apply get_todo_snd.
  - left. by destruct first_n.
  - rewrite post_todos_unfold.
    destruct (validate_TodoCreate body) as [todo|e]; [|by left].
    right. by exists (Create todo).
  - rewrite put_todos_unfold.
    destruct (validate_TodoUpdate body) as [updated_todo|e]; [|by left].
    right. by exists (Update todo_id updated_todo).
  - right. by exists (Delete todo_id).
Qed.

Lemma reachable_http_reachable all_todos :
  reachable_http all_todos → reachable all_todos.
Proof.
  intros [requests <-].
  induction requests as [|r requests IH] using rev_ind.
  - by exists [].
  - rewrite foldl_snoc.
    destruct (serve_http_serve (foldl serve_http all_todos_init requests) r)
      as [->|[r' ->]]; [done|].
    destruct IH as [requests' <-]. exists (requests' ++ [r']). by rewrite foldl_snoc.
Qed.

(** Every HTTP request keeps the stored names within the declared bounds. *)
Lemma serve_http_names all_todos r :
  Forall (λ todo, (3 ≤ length (Todo.todo_name todo) ≤ 512)%nat) all_todos →
  Forall (λ todo, (3 ≤ length (Todo.todo_name todo) ≤ 512)%nat)
         (serve_http all_todos r).
Proof.
  intros Hnames.
  destruct r as [todo_id|first_n|body|todo_id body|todo_id]; cbn [serve_http].
  - by rewrite get_todo_snd.
  - by destruct first_n.
  - rewrite post_todos_unfold.
    destruct (validate_TodoCreate body) as [todo|e] eqn:Hv; [|done].
    apply validate_TodoCreate_Ok in Hv as (_ & Hlen & _).
    rewrite create_todo_unfold. simpl. apply Forall_app. split; [done|].
    by apply Forall_singleton.
  - rewrite put_todos_unfold.
    destruct (validate_TodoUpdate body) as [updated_todo|e] eqn:Hv; [|done].
    apply validate_TodoUpdate_Ok in Hv as (_ & _ & _ & Hlen).
    rewrite update_todo_unfold.
    destruct (find_todo todo_id all_todos) as [[index todo]|] eqn:Hfind; [|done].
    simpl. apply Forall_insert; [done|].
    rewrite apply_update_todo_name.
    destruct (TodoUpdate.todo_name updated_todo) as [name|]; simpl; [by apply Hlen|].
    apply find_todo_Some in Hfind as (Hl & _ & _).
    rewrite Forall_forall in Hnames. apply Hnames.
    by eapply list_elem_of_lookup_2.
  - destruct (delete_todo_store todo_id all_todos) as [->|(index & _ & ->)]; [done|].
    by apply Forall_delete.
Qed.

(** X23.  After any sequence of HTTP requests, every stored todo has a
    name of 3 to 512 characters (code points), and the ids are positive
    and strictly increasing along the store. *)
Theorem reachable_http_invariant all_todos :
  reachable_http all_todos →
  Forall (λ todo, (3 ≤ length (Todo.todo_name todo) ≤ 512)%nat) all_todos ∧
  StronglySorted Z.lt (ids all_todos) ∧
  Forall (λ i, 0 < i) (ids all_todos).
Proof.
  intros Hr. split.
  - destruct Hr as [requests <-].
    induction requests as [|r requests IH] using rev_ind.
    + apply Forall_forall. intros todo Hin%list_elem_of_In. simpl in Hin.
      repeat (destruct Hin as [<-|Hin]; [vm_compute; lia|]). destruct Hin.
    + rewrite foldl_snoc. by apply serve_http_names.
  - apply reachable_http_reachable in Hr. split.
    + by apply reachable_StronglySorted.
    + by apply reachable_ids.
Qed.

(** A run in which a two-character name is refused on create and on
    update, and a three-character one is stored. *)
Lemma reachable_http_invariant_witness :
  let post name := {| TodoCreateBody.todo_name := Value (utf8 name);
                      TodoCreateBody.todo_description := Value (utf8 "Desk");
                      TodoCreateBody.priority := Absent |} in
  let put name := {| TodoUpdateBody.todo_name := Value (utf8 name);
                     TodoUpdateBody.todo_description := Null;
                     TodoUpdateBody.priority := Value 1 |} in
  let all_todos :=
    foldl serve_http all_todos_init
      [DELETE_todos 2; POST_todos (post "Write"); POST_todos (post "日本");
       PUT_todos 3 (put "ab"); PUT_todos 3 (put "日本");
       PUT_todos 6 (put "日本語"); GET_todos (Some (-1))] in
  Todo.todo_name <$> all_todos =
    [utf8 "Exercise"; utf8 "Shop"; utf8 "Study"; utf8 "Meditate"; utf8 "日本語"] ∧
  Forall (λ todo, (3 ≤ length (Todo.todo_name todo) ≤ 512)%nat) all_todos ∧
  StronglySorted Z.lt (ids all_todos) ∧
  Forall (λ i, 0 < i) (ids all_todos).
Proof.
  intros post put all_todos. split; [by vm_compute|].
  apply (reachable_http_invariant all_todos).
  by eexists.
Defined.

End todo_api_more.
